(** * ufot.widgets: a shallow embedding and its verified properties

    The module under study is [ufot/widgets.py]: two free array functions
    ([remove_extrema], [create_volume]), a TIFF reader wrapper and four Qt
    widgets driven by a slider.

    Modelling conventions, fixed once for the whole development:

    - Samples are finite numbers, held as exact rationals ([Qc], the
      canonical rationals, so that equality of samples is Leibniz equality);
      every float is one.  Infinities and NaN inside input arrays are not
      modelled; a division whose divisor is zero yields [None] (a non-finite
      sample).
    - What NumPy computes with rounding or in a dtype of its own choice is
      not recomputed but taken from the host ([Host.t]): [np.percentile]
      and the elementwise difference of two arrays are parameters.  The
      exact-arithmetic percentile [Np.percentile] is the reference instance
      used in examples.  The arithmetic of [create_volume] is carried out in
      exact rationals, and the rounding of the decoded samples to float32
      when [load_data] stores them is not modelled (the samples of 8- and
      16-bit images and of float32 images are stored as they are); the
      statements about the volume concern shapes, ranges and byte
      conversions, not the last bit of a quotient.
    - Integer arrays store [Z]; assigning a float into an integer array
      truncates toward zero, as NumPy's item assignment does.
    - NumPy arrays are views over shared buffers: a store of buffers and
      strided two-dimensional views, so that [a.T] and [np.flipud(a)] alias
      the buffer of [a].
    - The source is written for Python 2 ([LOG.warn], classic [super]) and
      divides integers with [/].  The interpreter is a parameter
      ([Py.version]): under Python 2 [/] is floor division, under Python 3
      it yields a float, which the Qt binding and [np.roll] either convert
      or reject with TypeError ([Host.qt_int], [Host.roll_int]).
    - An exception ends the method that raised it: the statements after it
      are not run, the assignments before it stay.
    - The Qt slider follows QAbstractSlider: [setRange] stores
      [max(min, max)] as the maximum and re-bounds the value,
      [valueChanged] fires only when the value really changes, and the
      widgets connect it to [update_image].
    - The external readers (dxchange, tifffile, ufot.util) are parameters. *)

From Stdlib Require Import ZArith QArith Qcanon Qround Lia Lqa String.
From stdpp Require Import base decidable option list sorting.

Local Open Scope Z_scope.

(** ** Scalars *)

Module Scalar.

Definition Qc_of_Z (z : Z) : Qc := Q2Qc (inject_Z z).

Definition Qcleb (x y : Qc) : bool :=
  match (x ?= y)%Qc with Gt => false | _ => true end.

Definition Qcltb (x y : Qc) : bool :=
  match (x ?= y)%Qc with Lt => true | _ => false end.

Definition Qceqb (x y : Qc) : bool :=
  match (x ?= y)%Qc with Eq => true | _ => false end.

(** C cast of a double to an integer type: truncation toward zero. *)
Definition Qctrunc (x : Qc) : Z :=
  if Qcleb (Qc_of_Z 0) x then Qfloor x else Qceiling x.

#[global] Instance Qcle_dec : RelDecision Qcle.
Proof.
  intros x y. destruct (Qclt_le_dec y x) as [H|H]; [right|left]; auto.
  apply Qclt_not_le; auto.
Defined.

End Scalar.
Export Scalar.

(** ** Python built-ins used by the module *)

Module Py.

Inductive version := Python2 | Python3.

(** A Python number: an [int] or a [float]. *)
Inductive num :=
  | Int (z : Z)
  | Float (q : Qc).

(** [a / b] between two ints, [b] not zero: floor division in Python 2,
    true division in Python 3. *)
Definition div (v : version) (a b : Z) : num :=
  match v with
  | Python2 => Int (a / b)
  | Python3 => Float (Qc_of_Z a / Qc_of_Z b)%Qc
  end.

(** [x - z] for an int [z]. *)
Definition sub (x : num) (z : Z) : num :=
  match x with
  | Int a => Int (a - z)
  | Float q => Float (q - Qc_of_Z z)%Qc
  end.

(** [seq[i]]: a negative index counts from the end; [None] is IndexError. *)
Definition getitem {A} (l : list A) (i : Z) : option A :=
  let n := Z.of_nat (length l) in
  if 0 <=? i then l !! Z.to_nat i
  else if - n <=? i then l !! Z.to_nat (n + i)
  else None.

(** Every [k]-th element, the first one after [skip] elements. *)
Fixpoint stride_from {A} (k skip : nat) (l : list A) : list A :=
  match l with
  | [] => []
  | x :: t =>
      match skip with
      | O => x :: stride_from k (Nat.pred k) t
      | S s => stride_from k s t
      end
  end.

(** [seq[::step]]; [None] is the ValueError of a zero step. *)
Definition slice_step {A} (step : Z) (l : list A) : option (list A) :=
  if step =? 0 then None
  else if 0 <? step then Some (stride_from (Z.to_nat step) 0 l)
  else Some (stride_from (Z.to_nat (- step)) 0 (rev l)).

(** [seq[1:]] *)
Definition slice_from1 {A} (l : list A) : list A := drop 1 l.

End Py.

(** ** The NumPy fragment *)

Module Np.

(** *** Percentiles *)

(** [np.percentile(a, q)] with the default linear interpolation, on the
    flattened data and in exact arithmetic: sort, locate the virtual index
    [q/100 * (n-1)], and blend its two neighbours.  [None] is the IndexError
    NumPy raises on an empty array.  NumPy evaluates the same formula in
    floating point, so its result can differ from this one in the last
    place; [remove_extrema] therefore takes the percentile function as a
    parameter, and this definition is the reference instance. *)
Definition percentile (a : list Qc) (q : Z) : option Qc :=
  let s := merge_sort Qcle a in
  let n := Z.of_nat (length s) in
  if n =? 0 then None
  else
    let indices : Qc := Q2Qc (q * (n - 1) # 100) in
    let below := Qfloor indices in
    let above := Z.min (below + 1) (n - 1) in
    let weights_above := (indices - Qc_of_Z below)%Qc in
    let weights_below := (Qc_of_Z 1 - weights_above)%Qc in
    let x1 := nth (Z.to_nat below) s (Qc_of_Z 0) in
    let x2 := nth (Z.to_nat above) s (Qc_of_Z 0) in
    Some (x1 * weights_below + x2 * weights_above)%Qc.

(** *** Buffers, the store and strided views *)

(** The memory of an array: float cells or integer cells.  The width of
    an integer dtype is not modelled: the module stores into a buffer only
    percentiles of that buffer's own content, which lie within the range
    of its samples, and arithmetic between arrays is left to the host. *)
Inductive buffer :=
  | FloatBuf (cells : list Qc)
  | IntBuf (cells : list Z).

Definition buf_size (b : buffer) : nat :=
  match b with FloatBuf c => length c | IntBuf c => length c end.

(** The value assigned into a buffer, as the buffer's dtype keeps it. *)
Definition cast (b : buffer) (v : Qc) : Qc :=
  match b with
  | FloatBuf _ => v
  | IntBuf _ => Qc_of_Z (Qctrunc v)
  end.

Definition buf_load (b : buffer) (a : Z) : Qc :=
  if a <? 0 then Qc_of_Z 0
  else
    match b with
    | FloatBuf c => default (Qc_of_Z 0) (c !! Z.to_nat a)
    | IntBuf c => Qc_of_Z (default 0 (c !! Z.to_nat a))
    end.

Definition buf_store (b : buffer) (a : Z) (v : Qc) : buffer :=
  if a <? 0 then b
  else
    match b with
    | FloatBuf c => FloatBuf (<[Z.to_nat a := v]> c)
    | IntBuf c => IntBuf (<[Z.to_nat a := Qctrunc v]> c)
    end.

Abbreviation store := (list buffer).

Definition get_buf (st : store) (b : nat) : buffer :=
  default (FloatBuf []) (st !! b).

(** A two-dimensional ndarray: a window on a buffer. *)
Record view := mkView {
  base : nat;
  offset : Z;
  vrows : nat;
  vcols : nat;
  rstride : Z;
  cstride : Z
}.

Definition addr (v : view) (i j : nat) : Z :=
  offset v + Z.of_nat i * rstride v + Z.of_nat j * cstride v.

Definition in_bounds (st : store) (v : view) : Prop :=
  forall i j, (i < vrows v)%nat -> (j < vcols v)%nat ->
    0 <= addr v i j < Z.of_nat (buf_size (get_buf st (base v))).

(** [a.T] *)
Definition T (v : view) : view :=
  {| base := base v; offset := offset v;
     vrows := vcols v; vcols := vrows v;
     rstride := cstride v; cstride := rstride v |}.

(** [np.flipud(a)]: [a[::-1, ...]], still a view. *)
Definition flipud (v : view) : view :=
  {| base := base v;
     offset := offset v + (Z.of_nat (vrows v) - 1) * rstride v;
     vrows := vrows v; vcols := vcols v;
     rstride := - rstride v; cstride := cstride v |}.

Definition vshape (v : view) : nat * nat := (vrows v, vcols v).

Definition vget (st : store) (v : view) (i j : nat) : Qc :=
  buf_load (get_buf st (base v)) (addr v i j).

(** The addresses of a view in C (row-major) iteration order. *)
Definition addrs (v : view) : list Z :=
  flat_map (fun i => map (fun j => addr v i j) (seq 0 (vcols v)))
           (seq 0 (vrows v)).

Definition view_flat (st : store) (v : view) : list Qc :=
  map (buf_load (get_buf st (base v))) (addrs v).

(** [data[mask] = value] with a boolean mask laid out like [data]. *)
Definition setitem_mask (st : store) (v : view) (mask : list bool) (value : Qc)
  : store :=
  let b := fold_left
             (fun (buf : buffer) (am : Z * bool) =>
                if snd am then buf_store buf (fst am) value else buf)
             (combine (addrs v) mask)
             (get_buf st (base v)) in
  <[base v := b]> st.

End Np.

(** How a call ends: with a value, or with an exception. *)
Inductive outcome (A : Type) :=
  | Returned (a : A)
  | Raised (exn : string).
Arguments Returned {A} _.
Arguments Raised {A} _.

(** ** remove_extrema

    [percentile] is [np.percentile] on the flattened array; where it raises
    (on an empty array), [remove_extrema] raises with it and the array is
    untouched.  The result pairs the store after the call with the way the
    call ended. *)

Definition remove_extrema (percentile : list Qc -> Z -> option Qc)
  (st : Np.store) (data : Np.view) : Np.store * outcome Np.view :=
  match percentile (Np.view_flat st data) 99 with
  | None => (st, Raised "IndexError")
  | Some upper =>
      match percentile (Np.view_flat st data) 1 with
      | None => (st, Raised "IndexError")
      | Some lower =>
          let st1 := Np.setitem_mask st data
                       (map (fun x => Qcltb upper x) (Np.view_flat st data))
                       upper in
          let st2 := Np.setitem_mask st1 data
                       (map (fun x => Qcltb x lower) (Np.view_flat st1 data))
                       lower in
          (st2, Returned data)
      end
  end.

(** What the two masked assignments of [remove_extrema] leave in a cell
    of buffer [b] that held [x]. *)
Definition clamp (b : Np.buffer) (lower upper x : Qc) : Qc :=
  let y := if Qcltb upper x then Np.cast b upper else x in
  if Qcltb y lower then Np.cast b lower else y.


(** ** Array values

    The arrays the module computes afresh (differences, quotients, the
    volume) are values: a shape and the samples. *)

Module Arr.

Record arr2 (A : Type) := mkArr {
  nrows : nat;
  ncols : nat;
  rows : list (list A)
}.
Arguments mkArr {A} _ _ _.
Arguments nrows {A} _.
Arguments ncols {A} _.
Arguments rows {A} _.

Definition shape2 {A} (a : arr2 A) : nat * nat := (nrows a, ncols a).

(** Rows and columns agree with the declared shape. *)
Definition wf {A} (a : arr2 A) : Prop :=
  length (rows a) = nrows a /\ Forall (fun r => length r = ncols a) (rows a).

(** The array a view denotes in a given store. *)
Definition view_read (st : Np.store) (v : Np.view) : arr2 Qc :=
  mkArr (Np.vrows v) (Np.vcols v)
    (map (fun i => map (fun j => Np.vget st v i j) (seq 0 (Np.vcols v)))
         (seq 0 (Np.vrows v))).

(** [a.T] on a value. *)
Definition transpose {A} (a : arr2 A) : arr2 A :=
  mkArr (ncols a) (nrows a)
    (map (fun j => omap (fun r : list A => r !! j) (rows a)) (seq 0 (ncols a))).

(** [np.roll] along one axis of length [n]: the element at [i] moves to
    [(i + shift) mod n]; nothing moves in an empty axis. *)
Definition rotate {A} (shift : Z) (l : list A) : list A :=
  let n := length l in
  if (n =? 0)%nat then l
  else
    let k := Z.to_nat (shift mod Z.of_nat n) in
    drop (n - k) l ++ take (n - k) l.

(** [np.roll(a, shift, axis=0)] *)
Definition roll0 {A} (shift : Z) (a : arr2 A) : arr2 A :=
  mkArr (nrows a) (ncols a) (rotate shift (rows a)).

(** Broadcasting of one dimension against another. *)
Definition bdim (a b : nat) : option nat :=
  if (a =? b)%nat then Some a
  else if (a =? 1)%nat then Some b
  else if (b =? 1)%nat then Some a
  else None.

Definition stretch {A} (n : nat) (l : list A) : list A :=
  if (length l =? n)%nat then l
  else match l with [x] => replicate n x | _ => l end.

Definition expand {A} (r c : nat) (a : arr2 A) : list (list A) :=
  map (stretch c) (stretch r (rows a)).

(** An elementwise binary operation under NumPy's broadcasting rules;
    [None] is the ValueError of incompatible shapes. *)
Definition map2 {A B C} (f : A -> B -> C) (a : arr2 A) (b : arr2 B)
  : option (arr2 C) :=
  match bdim (nrows a) (nrows b), bdim (ncols a) (ncols b) with
  | Some r, Some c =>
      Some (mkArr r c (zip_with (zip_with f) (expand r c a) (expand r c b)))
  | _, _ => None
  end.

(** [a[:, :] = b]: [b] broadcast to the shape [(r, c)]. *)
Definition broadcast_to {A} (r c : nat) (b : arr2 A) : option (arr2 A) :=
  if ((nrows b =? r)%nat || (nrows b =? 1)%nat)
     && ((ncols b =? c)%nat || (ncols b =? 1)%nat)
  then Some (mkArr r c (expand r c b))
  else None.

Definition fmap2 {A B} (f : A -> B) (a : arr2 A) : arr2 B :=
  mkArr (nrows a) (ncols a) (map (map f) (rows a)).


Definition ones (r c : nat) : arr2 Qc :=
  mkArr r c (replicate r (replicate c (Qc_of_Z 1))).

(** [a[::step, ::step]] *)
Definition subsample {A} (step : Z) (a : arr2 A) : option (arr2 A) :=
  match Py.slice_step step (rows a), Py.slice_step step (seq 0 (ncols a)),
        Py.slice_step step (seq 0 (nrows a)) with
  | Some rs, Some cs, Some ris =>
      Some (mkArr (length ris) (length cs)
              (omap (fun r => Py.slice_step step r) rs))
  | _, _, _ => None
  end.

(** An array of any rank, in C order. *)
Record ndarray (A : Type) := mkNd {
  shape : list nat;
  flat : list A
}.
Arguments mkNd {A} _ _.
Arguments shape {A} _.
Arguments flat {A} _.

Definition size_of (sh : list nat) : nat := fold_right Nat.mul 1%nat sh.

Definition wf_nd {A} (a : ndarray A) : Prop :=
  length (flat a) = size_of (shape a).

Definition Qcmin (x y : Qc) : Qc := if Qcleb x y then x else y.
Definition Qcmax (x y : Qc) : Qc := if Qcleb x y then y else x.

(** [a.min()] and [a.max()]: [None] is the ValueError on an empty array. *)
Definition amin (l : list Qc) : option Qc :=
  match l with [] => None | x :: t => Some (fold_left Qcmin t x) end.

Definition amax (l : list Qc) : option Qc :=
  match l with [] => None | x :: t => Some (fold_left Qcmax t x) end.

(** Float division; [None] is a non-finite quotient (inf or NaN). *)
Definition fdiv (x y : Qc) : option Qc :=
  if Qceqb y (Qc_of_Z 0) then None else Some (x / y)%Qc.

(** Conversion of a float to [np.ubyte] on assignment, as the C cast
    does it on x86-64: the float is truncated toward zero to a 32-bit
    integer and the low byte is kept, so 300 is stored as 44 and -1 as 255;
    a value that fits no 32-bit integer, or a non-finite one, is stored
    as 0. *)
Definition to_ubyte (x : option Qc) : Z :=
  match x with
  | Some q =>
      let t := Qctrunc q in
      if (- 2 ^ 31 <=? t) && (t <? 2 ^ 31) then t mod 256 else 0
  | None => 0
  end.

(** [vol[..., c] = vals] on an array whose last axis has length [k]. *)
Definition set_last {A} (k c : nat) (vals : list A) (vol : list A) : list A :=
  imap (fun idx old =>
          if (idx mod k =? c)%nat then default old (vals !! (idx / k)%nat)
          else old) vol.

(** [np.empty(sh, dtype)]: every cell is written before it is read, so the
    initial content is immaterial; zero stands for it. *)
Definition empty {A} (zero : A) (sh : list nat) : ndarray A :=
  mkNd sh (replicate (size_of sh) zero).

End Arr.

(** ** create_volume *)

(** [(data - np.roll(data, 1))**2] on the flattened samples. *)
Definition squared_gradient (d : list Qc) : list Qc :=
  zip_with (fun x y => ((x - y) * (x - y))%Qc) d (Arr.rotate 1 d).

(** [(gradient - cmin) / div * 255] *)
Definition normalize (cmin div : Qc) (gradient : list Qc) : list (option Qc) :=
  map (fun g => option_map (fun q => (q * Qc_of_Z 255)%Qc)
                  (Arr.fdiv (g - cmin)%Qc div)) gradient.

(** [None] is the ValueError raised by [gradient.min()] on an empty array. *)
Definition create_volume (data : Arr.ndarray Qc) : option (Arr.ndarray Z) :=
  let d := Arr.flat data in
  let gradient := squared_gradient d in
  match Arr.amin gradient, Arr.amax gradient with
  | Some cmin, Some cmax =>
      let div := (cmax - cmin)%Qc in
      let gradient' := normalize cmin div gradient in
      let volume := Arr.empty 0 (Arr.shape data ++ [4%nat]) in
      let intensity := map (fun x => Arr.to_ubyte (Some x)) d in
      let v0 := Arr.set_last 4 0 intensity (Arr.flat volume) in
      let v1 := Arr.set_last 4 1 intensity v0 in
      let v2 := Arr.set_last 4 2 intensity v1 in
      let v3 := Arr.set_last 4 3 (map Arr.to_ubyte gradient') v2 in
      Some (Arr.mkNd (Arr.shape volume) v3)
  | _, _ => None
  end.

(** ** The Qt slider *)

Module Qt.

Record slider := mkSlider {
  minimum : Z;
  maximum : Z;
  value : Z
}.

(** A freshly constructed QSlider. *)
Definition new_slider : slider := mkSlider 0 99 0.

Definition bound (s : slider) (v : Z) : Z :=
  Z.max (minimum s) (Z.min (maximum s) v).

(** [setValue]: the boolean tells whether [valueChanged] is emitted. *)
Definition setValue (s : slider) (v : Z) : slider * bool :=
  let v' := bound s v in
  if v' =? value s then (s, false)
  else (mkSlider (minimum s) (maximum s) v', true).

(** [setSliderPosition] on a slider with tracking on and not pressed. *)
Definition setSliderPosition (s : slider) (p : Z) : slider * bool :=
  setValue s p.

(** [setRange]: the maximum is never below the minimum, and the value is
    bounded again when the range changed. *)
Definition setRange (s : slider) (mn mx : Z) : slider * bool :=
  let s' := mkSlider mn (Z.max mn mx) (value s) in
  if (minimum s =? minimum s') && (maximum s =? maximum s') then (s', false)
  else setValue s' (value s').

Definition range (s : slider) : Z * Z := (minimum s, maximum s).

End Qt.

(** ** Widget actions

    An action transforms the widget and leaves a trace of what it did to
    the outside: images pushed to the display item, warnings logged,
    exceptions raised.  An exception raised inside a slot that a slider
    call triggered is reported where the slot ran and the caller goes on;
    an exception raised by a statement of the method itself is the last
    event of the method. *)

Module Act.

Inductive event (I : Type) :=
  | SetImage (img : I)
  | Warn (msg : string)
  | Raise (exn : string).
Arguments SetImage {I} _.
Arguments Warn {I} _.
Arguments Raise {I} _.

Definition act (W I : Type) := W -> W * list (event I).

Definition skip {W I} : act W I := fun w => (w, []).

Definition andthen {W I} (a b : act W I) : act W I :=
  fun w => let (w1, e1) := a w in
           let (w2, e2) := b w1 in
           (w2, e1 ++ e2).

(** A slot connected to a signal runs only when the signal is emitted. *)
Definition emit {W I} (emitted : bool) (slot : act W I) : act W I :=
  if emitted then slot else skip.

Definition is_render {I} (e : event I) : bool :=
  match e with SetImage _ => true | _ => false end.

(** A sequence of actions, one after the other. *)
Definition run {W I} (acts : list (act W I)) : act W I :=
  fold_right andthen skip acts.

End Act.

Notation "a >>> b" := (Act.andthen a b) (at level 62, right associativity).

(** The file argument of the viewers as a Python value. *)
Inductive pyfiles :=
  | PyNone
  | PyStr (s : string)
  | PyList (l : list string).

(** Python truthiness. *)
Definition truthy (f : pyfiles) : bool :=
  match f with
  | PyNone => false
  | PyStr s => negb (String.eqb s EmptyString)
  | PyList l => negb (Nat.eqb (length l) 0)
  end.

(** ** read_tiff *)

Section TiffReader.

(** [tifffile.TiffFile(filename).asarray()] for a single-image file. *)
Variable tiff_asarray : string -> Arr.arr2 Qc.

Definition read_tiff (filename : string) : Arr.arr2 Qc :=
  Arr.transpose (tiff_asarray filename).

End TiffReader.

(** ** ProjectionViewer *)

Module ProjectionViewer.

Definition image := Arr.arr2 (option Qc).

Record state := mkState {
  image_item : option image;
  slider : Qt.slider;
  filenames : pyfiles;
  ffc_correction : bool
}.

Definition with_slider (w : state) (s : Qt.slider) : state :=
  mkState (image_item w) s (filenames w) (ffc_correction w).

Section Readers.

(** [dx.read_aps_32id(fname, proj=(lo, hi))]: the frames [proj[0,:,:]] and
    [flat[0,:,:]] of what it returns. *)
Variable read_aps_32id : pyfiles -> Z -> Z -> Arr.arr2 Qc * Arr.arr2 Qc.

(** [util.get_dx_dims(str(fname), 'data')[0]]: the number of frames. *)
Variable get_dx_dims0 : pyfiles -> Z.

Definition init : state :=
  mkState None (fst (Qt.setRange Qt.new_slider 0 0)) PyNone false.

Definition update_image : Act.act state image :=
  fun w =>
    if truthy (filenames w) then
      let pos := Qt.value (slider w) in
      let '(proj, flat) := read_aps_32id (filenames w) pos (pos + 1) in
      let result :=
        if ffc_correction w then Arr.map2 Arr.fdiv proj flat
        else Some (Arr.fmap2 Some proj) in
      match result with
      | Some img =>
          (mkState (Some img) (slider w) (filenames w) (ffc_correction w),
           [Act.SetImage img])
      | None => (w, [Act.Raise "ValueError"])
      end
    else (w, []).

(** A slider call followed by the slot it may trigger. *)
Definition on_slider (f : Qt.slider -> Qt.slider * bool) : Act.act state image :=
  fun w => let (s, emitted) := f (slider w) in
           Act.emit emitted update_image (with_slider w s).

Definition load_files (fnames : pyfiles) (ffc : bool) : Act.act state image :=
  (fun w => (mkState (image_item w) (slider w) fnames ffc, [])) >>>
  on_slider (fun s => Qt.setRange s 0 (get_dx_dims0 fnames - 1)) >>>
  on_slider (fun s => Qt.setSliderPosition s 0) >>>
  update_image.

(** The user drags the slider to [p]. *)
Definition move_slider (p : Z) : Act.act state image :=
  on_slider (fun s => Qt.setValue s p).

End Readers.

End ProjectionViewer.

(** ** SliceViewer *)

Module SliceViewer.

Definition image := Arr.arr2 Qc.

Record state := mkState {
  image_item : option image;
  slider : Qt.slider;
  filenames : list string
}.

Definition with_slider (w : state) (s : Qt.slider) : state :=
  mkState (image_item w) s (filenames w).

Section Readers.

Variable tiff_asarray : string -> Arr.arr2 Qc.

Definition update_image : Act.act state image :=
  fun w =>
    if truthy (PyList (filenames w)) then
      let pos := Qt.value (slider w) in
      match Py.getitem (filenames w) pos with
      | Some filename =>
          let img := read_tiff tiff_asarray filename in
          (mkState (Some img) (slider w) (filenames w), [Act.SetImage img])
      | None => (w, [Act.Raise "IndexError"])
      end
    else (w, []).

Definition on_slider (f : Qt.slider -> Qt.slider * bool) : Act.act state image :=
  fun w => let (s, emitted) := f (slider w) in
           Act.emit emitted update_image (with_slider w s).

Definition load_files (fnames : list string) : Act.act state image :=
  (fun w => (mkState (image_item w) (slider w) fnames, [])) >>>
  on_slider (fun s => Qt.setRange s 0 (Z.of_nat (length fnames) - 1)) >>>
  on_slider (fun s => Qt.setSliderPosition s 0) >>>
  update_image.

(** [SliceViewer(filenames)] *)
Definition init (fnames : list string) : state * list (Act.event image) :=
  load_files fnames (mkState None Qt.new_slider []).

Definition move_slider (p : Z) : Act.act state image :=
  on_slider (fun s => Qt.setValue s p).

End Readers.

End SliceViewer.

(** ** The host

    What the module takes from the interpreter and the libraries beneath
    it, and what the source does not fix. *)

Module Host.

Record t := mk {
  (** the interpreter, which decides what [/] between two ints is *)
  version : Py.version;
  (** a float handed to a Qt method that takes a C++ [int]: the integer
      the binding converts it to, or [None] when it raises TypeError *)
  qt_int : Qc -> option Z;
  (** a float handed to [np.roll] as the shift: the whole number of places
      NumPy rolls by, or [None] when it raises TypeError *)
  roll_int : Qc -> option Z;
  (** [np.percentile] on the flattened array; [None] when it raises *)
  percentile : list Qc -> Z -> option Qc;
  (** [x - y] between a sample of one array and a sample of another, in
      the dtype NumPy promotes the two arrays to: the exact difference for
      floats up to rounding, the difference modulo 2^w for unsigned
      integers of width w *)
  subtract : Qc -> Qc -> Qc
}.

(** A Python number handed to a C function that takes an integer: an int
    passes as it is, a float goes through the conversion of the binding. *)
Definition as_int (of_float : Qc -> option Z) (x : Py.num) : option Z :=
  match x with
  | Py.Int z => Some z
  | Py.Float q => of_float q
  end.

(** Python 2, with exact arithmetic on the samples.  No float reaches Qt
    or [np.roll] here, [/] between ints being an int. *)
Definition python2 : t :=
  mk Py.Python2 (fun q => Some (Qctrunc q)) (fun q => Some (Qctrunc q))
     Np.percentile Qcminus.

(** Python 3 with PyQt5 and a recent NumPy, with exact arithmetic on the
    samples: [/] yields a float, which [setSliderPosition] rejects with
    TypeError and [np.roll] truncates ([int(shift)]). *)
Definition python3 : t :=
  mk Py.Python3 (fun _ => None) (fun q => Some (Qctrunc q))
     Np.percentile Qcminus.

End Host.

(** ** OverlapViewer *)

Module OverlapViewer.

Definition image := Arr.arr2 Qc.

(** [first] and [second] are ndarray objects: views on buffers the caller
    may still hold. *)
Record state := mkState {
  image_item : option image;
  slider : Qt.slider;
  first : option Np.view;
  second : option Np.view
}.

Definition with_slider (w : state) (s : Qt.slider) : state :=
  mkState (image_item w) s (first w) (second w).

Definition init : state :=
  mkState None (fst (Qt.setRange Qt.new_slider 0 0)) None None.

(** The method stops with an exception: the widget stays as it is. *)
Definition raise (exn : string) : Act.act state image :=
  fun w => (w, [Act.Raise exn]).

Section Hosted.

Variable H : Host.t.

(** The position [setSliderPosition(first.shape[0] / 2)] is called with;
    [None] when the call raises TypeError. *)
Definition midpoint (f : Np.view) : option Z :=
  Host.as_int (Host.qt_int H)
    (Py.div (Host.version H) (Z.of_nat (Np.vrows f)) 2).

(** The number of rows [np.roll(second, second.shape[0] / 2 - pos, axis=0)]
    rolls by; [None] when the call raises TypeError. *)
Definition shift (s : Np.view) (pos : Z) : option Z :=
  Host.as_int (Host.roll_int H)
    (Py.sub (Py.div (Host.version H) (Z.of_nat (Np.vrows s)) 2) pos).

Definition update_image (st : Np.store) : Act.act state image :=
  fun w =>
    match first w, second w with
    | Some f, Some s =>
        let pos := Qt.value (slider w) in
        match shift s pos with
        | Some k =>
            let moved := Arr.roll0 k (Arr.view_read st s) in
            match Arr.map2 (Host.subtract H) moved (Arr.view_read st f) with
            | Some img =>
                (mkState (Some img) (slider w) (first w) (second w),
                 [Act.SetImage img])
            | None => (w, [Act.Raise "ValueError"])
            end
        | None => (w, [Act.Raise "TypeError"])
        end
    | _, _ => (w, [Act.Warn "No images set yet"])
    end.

Definition on_slider (st : Np.store) (f : Qt.slider -> Qt.slider * bool)
  : Act.act state image :=
  fun w => let (s, emitted) := f (slider w) in
           Act.emit emitted (update_image st) (with_slider w s).

Definition warn_shapes (f s : Np.view) : Act.act state image :=
  fun w =>
    if decide (Np.vshape f = Np.vshape s) then (w, [])
    else (w, [Act.Warn "Shape {} of {} is different to {} of {}"]).

(** Lines 152 to 158, once both images are stored. *)
Definition show (st : Np.store) (f s : Np.view) : Act.act state image :=
  warn_shapes f s >>>
  on_slider st (fun sl => Qt.setRange sl 0 (Z.of_nat (Np.vrows f))) >>>
  match midpoint f with
  | Some p =>
      on_slider st (fun sl => Qt.setSliderPosition sl p) >>> update_image st
  | None => raise "TypeError"
  end.

(** The store after the call, the widget after the call and what the call
    did; a call that raised ends its events with the exception. *)
Definition set_images (st : Np.store) (first_arg second_arg : Np.view)
  (w : state) : Np.store * (state * list (Act.event image)) :=
  match remove_extrema (Host.percentile H) st (Np.T first_arg) with
  | (st1, Raised exn) => (st1, raise exn w)
  | (st1, Returned f) =>
      let w1 := mkState (image_item w) (slider w) (Some f) (second w) in
      match remove_extrema (Host.percentile H) st1
              (Np.flipud (Np.T second_arg)) with
      | (st2, Raised exn) => (st2, raise exn w1)
      | (st2, Returned s) =>
          let w2 := mkState (image_item w1) (slider w1) (first w1) (Some s) in
          (st2, show st2 f s w2)
      end
  end.

(** [int(position)] truncates toward zero. *)
Definition set_position (st : Np.store) (position : Qc) : Act.act state image :=
  on_slider st (fun sl => Qt.setValue sl (Qctrunc position)) >>>
  update_image st.

Definition move_slider (st : Np.store) (p : Z) : Act.act state image :=
  on_slider st (fun sl => Qt.setValue sl p).

End Hosted.

End OverlapViewer.

(** ** VolumeViewer *)

Module VolumeViewer.

Record volume_item := mkItem {
  volume : Arr.ndarray Z;
  sliceDensity : Z;
  translation : Py.num * Py.num * Py.num;
  scaling : Qc * Qc * Qc
}.

Record state := mkState {
  step : Z;
  density : Z;
  items : list volume_item
}.

Definition init (step density : Z) : state := mkState step density [].

Section Readers.

Variable version : Py.version.
Variable tiff_asarray : string -> Arr.arr2 Qc.

Definition read_sub (st : Z) (filename : string) : option (Arr.arr2 Qc) :=
  Arr.subsample st (read_tiff tiff_asarray filename).

(** [data[:, :, k] = img] on a [(width, height, num)] array. *)
Definition set_plane (width height num k : nat) (img : Arr.arr2 Qc)
  (data : list Qc) : option (list Qc) :=
  match Arr.broadcast_to width height img with
  | Some b => Some (Arr.set_last num k (concat (Arr.rows b)) data)
  | None => None
  end.

(** The loop over [enumerate(filenames[1:])]. *)
Fixpoint fill (st : Z) (width height num : nat) (i : nat) (fs : list string)
  (data : list Qc) : option (list Qc) :=
  match fs with
  | [] => Some data
  | filename :: rest =>
      match read_sub st filename with
      | Some img =>
          match set_plane width height num (i + 1) img data with
          | Some data' => fill st width height num (S i) rest data'
          | None => None
          end
      | None => None
      end
  end.

(** The volume array [load_data] assembles before rendering. *)
Definition assemble (st : Z) (fnames : list string) : option (Arr.ndarray Qc) :=
  match Py.slice_step st fnames with
  | Some fnames' =>
      let num := length fnames' in
      match Py.getitem fnames' 0 with
      | Some f0 =>
          match read_sub st f0 with
          | Some first =>
              let width := Arr.nrows first in
              let height := Arr.ncols first in
              let data := Arr.empty (Qc_of_Z 0) [width; height; num] in
              match set_plane width height num 0 first (Arr.flat data) with
              | Some d0 =>
                  match fill st width height num 0 (Py.slice_from1 fnames') d0 with
                  | Some d => Some (Arr.mkNd [width; height; num] d)
                  | None => None
                  end
              | None => None
              end
          | None => None
          end
      | None => None
      end
  | None => None
  end.

(** [None]: an exception was raised, nothing was added to the view. *)
Definition load_data (fnames : list string) (w : state) : option state :=
  match assemble (step w) fnames with
  | Some data =>
      match create_volume data with
      | Some vol =>
          match Arr.shape vol with
          | [dx; dy; dz; _] =>
              let item :=
                mkItem vol (density w)
                  (Py.div version (- Z.of_nat dx) 2,
                   Py.div version (- Z.of_nat dy) 2,
                   Py.div version (- Z.of_nat dz) 2)
                  (Q2Qc (5 # 100), Q2Qc (5 # 100), Q2Qc (5 # 100)) in
              Some (mkState (step w) (density w) (items w ++ [item]))
          | _ => None
          end
      | None => None
      end
  | None => None
  end.

End Readers.

End VolumeViewer.

(** * Properties *)

(** ** Facts on scalars *)

#[global] Instance Qcle_total : Total Qcle.
Proof.
  intros x y. destruct (Qclt_le_dec x y) as [H|H]; [left|right]; auto.
  apply Qclt_le_weak; auto.
Qed.

#[global] Instance Qcle_transitive : Transitive Qcle.
Proof. intros x y z. apply Qcle_trans. Qed.




Lemma Qc_of_Z_this z : (this (Qc_of_Z z) == inject_Z z)%Q.
Proof. unfold Qc_of_Z, Q2Qc. cbn [this]. apply Qred_correct. Qed.


Lemma Qc_of_Z_le_inv a b : (Qc_of_Z a <= Qc_of_Z b)%Qc -> a <= b.
Proof.
  unfold Qcle. rewrite !Qc_of_Z_this. rewrite <- Zle_Qle. auto.
Qed.

(** ** Truncation *)


Lemma Qctrunc_of_Z z : Qctrunc (Qc_of_Z z) = z.
Proof.
  unfold Qctrunc. rewrite !Qc_of_Z_this.
  destruct (Qcleb _ _); [apply Qfloor_Z | apply Qceiling_Z].
Qed.



(** ** From canonical to plain rationals *)







(** ** Percentiles are monotone in the rank *)



Section VirtualIndex.

Variables (n q : Z).
Hypothesis Hn : 1 <= n.
Hypothesis Hq : 0 <= q <= 100.

Let indices : Qc := Q2Qc (q * (n - 1) # 100).




End VirtualIndex.



(** ** Buffers and masked assignment *)

Lemma buf_size_store b a v : Np.buf_size (Np.buf_store b a v) = Np.buf_size b.
Proof.
  unfold Np.buf_store. destruct (a <? 0); [reflexivity |].
  destruct b; simpl; apply length_insert.
Qed.

Lemma cast_store b a v x : Np.cast (Np.buf_store b a v) x = Np.cast b x.
Proof.
  unfold Np.buf_store. destruct (a <? 0); [reflexivity |].
  destruct b; reflexivity.
Qed.

Lemma buf_load_store b a v a' :
  0 <= a < Z.of_nat (Np.buf_size b) ->
  Np.buf_load (Np.buf_store b a v) a' =
  if a =? a' then Np.cast b v else Np.buf_load b a'.
Proof.
  intros Ha. unfold Np.buf_store, Np.buf_load.
  destruct (a <? 0) eqn:Ea; [lia |].
  destruct (a =? a') eqn:Eaa.
  - apply Z.eqb_eq in Eaa. subst a'. rewrite Ea.
    destruct b; simpl in *; rewrite list_lookup_insert_eq by lia; reflexivity.
  - apply Z.eqb_neq in Eaa. destruct (a' <? 0) eqn:Ea'; [reflexivity |].
    destruct b; simpl; rewrite list_lookup_insert_ne by lia; reflexivity.
Qed.

Lemma fold_store_size value (l : list (Z * bool)) b :
  Np.buf_size
    (fold_left (fun (buf : Np.buffer) (am : Z * bool) =>
                  if snd am then Np.buf_store buf (fst am) value else buf) l b)
  = Np.buf_size b.
Proof.
  revert b. induction l as [| [a m] l IH]; intros b; simpl; [reflexivity |].
  rewrite IH. destruct m; [apply buf_size_store | reflexivity].
Qed.

Lemma fold_store_cast value (l : list (Z * bool)) b x :
  Np.cast
    (fold_left (fun (buf : Np.buffer) (am : Z * bool) =>
                  if snd am then Np.buf_store buf (fst am) value else buf) l b) x
  = Np.cast b x.
Proof.
  revert b. induction l as [| [a m] l IH]; intros b; simpl; [reflexivity |].
  rewrite IH. destruct m; [apply cast_store | reflexivity].
Qed.

(** After the masked stores a cell holds the cast value when some masked
    address hit it, and its old content otherwise. *)
Lemma fold_store_load value (l : list (Z * bool)) b a :
  Forall (fun am => 0 <= fst am < Z.of_nat (Np.buf_size b)) l ->
  Np.buf_load
    (fold_left (fun (buf : Np.buffer) (am : Z * bool) =>
                  if snd am then Np.buf_store buf (fst am) value else buf) l b) a
  = if existsb (fun am => (fst am =? a) && snd am) l
    then Np.cast b value else Np.buf_load b a.
Proof.
  revert b. induction l as [| [a0 m] l IH]; intros b Hl; simpl; [reflexivity |].
  inversion Hl as [| ? ? Ha0 Hl']; subst. simpl in Ha0.
  destruct m; simpl.
  - rewrite IH by (rewrite buf_size_store; exact Hl').
    rewrite cast_store, buf_load_store by exact Ha0.
    rewrite andb_true_r. destruct (a0 =? a); simpl.
    + destruct (existsb _ l); reflexivity.
    + reflexivity.
  - rewrite IH by exact Hl'. rewrite andb_false_r. reflexivity.
Qed.

(** A mask computed from the cells themselves selects exactly the
    addresses of the view whose cell satisfies the test. *)
Lemma existsb_mask (f : Z -> bool) (l : list Z) a :
  existsb (fun am : Z * bool => (fst am =? a) && snd am) (combine l (map f l))
  = bool_decide (a ∈ l) && f a.
Proof.
  induction l as [| x l IH]; simpl; [reflexivity |].
  rewrite IH. destruct (x =? a) eqn:E.
  - apply Z.eqb_eq in E. subst x. rewrite (bool_decide_eq_true_2 (a ∈ a :: l)) by left.
    simpl. destruct (f a); simpl; [reflexivity |].
    rewrite andb_false_r. reflexivity.
  - apply Z.eqb_neq in E. simpl.
    destruct (decide (a ∈ l)) as [Hin | Hin].
    + rewrite (bool_decide_eq_true_2 (a ∈ x :: l)) by (by right).
      rewrite (bool_decide_eq_true_2 (a ∈ l)) by exact Hin. reflexivity.
    + rewrite (bool_decide_eq_false_2 (a ∈ l)) by exact Hin.
      rewrite (bool_decide_eq_false_2 (a ∈ x :: l)); [reflexivity |].
      intros Hc. apply elem_of_cons in Hc as [-> | Hc]; [congruence | tauto].
Qed.

Lemma addrs_inv v a :
  a ∈ Np.addrs v ->
  exists i j, (i < Np.vrows v)%nat /\ (j < Np.vcols v)%nat /\ a = Np.addr v i j.
Proof.
  unfold Np.addrs. rewrite list_elem_of_In, in_flat_map.
  intros (i & Hi & Ha). apply in_map_iff in Ha as (j & <- & Hj).
  apply in_seq in Hi, Hj. exists i, j. repeat split; lia.
Qed.

Lemma addrs_in_bounds st v :
  Np.in_bounds st v ->
  Forall (fun a => 0 <= a < Z.of_nat (Np.buf_size (Np.get_buf st (Np.base v))))
         (Np.addrs v).
Proof.
  intros Hb. apply Forall_forall. intros a Ha.
  apply addrs_inv in Ha as (i & j & Hi & Hj & ->). apply Hb; assumption.
Qed.

Lemma get_buf_insert_eq (st : Np.store) k b :
  (k < length st)%nat -> Np.get_buf (<[k := b]> st) k = b.
Proof.
  intros Hk. unfold Np.get_buf. rewrite list_lookup_insert_eq by exact Hk.
  reflexivity.
Qed.

Lemma get_buf_insert_ne (st : Np.store) k k' b :
  k <> k' -> Np.get_buf (<[k := b]> st) k' = Np.get_buf st k'.
Proof.
  intros Hk. unfold Np.get_buf. rewrite list_lookup_insert_ne by exact Hk.
  reflexivity.
Qed.

(** A view with at least one in-bounds cell sits on an allocated buffer. *)
Lemma in_bounds_allocated st v i j :
  Np.in_bounds st v -> (i < Np.vrows v)%nat -> (j < Np.vcols v)%nat ->
  (Np.base v < length st)%nat.
Proof.
  intros Hb Hi Hj. specialize (Hb i j Hi Hj).
  destruct (decide (Np.base v < length st)%nat) as [H | H]; [exact H |].
  unfold Np.get_buf in Hb. rewrite lookup_ge_None_2 in Hb by lia.
  simpl in Hb. lia.
Qed.

Section MaskedAssignment.

Variables (st : Np.store) (v : Np.view) (f : Qc -> bool) (value : Qc).
Hypothesis Hb : Np.in_bounds st v.
Hypothesis Halloc : (Np.base v < length st)%nat.

Let b := Np.get_buf st (Np.base v).
Let st' := Np.setitem_mask st v (map f (Np.view_flat st v)) value.

Lemma setitem_mask_load a :
  Np.buf_load (Np.get_buf st' (Np.base v)) a =
  if bool_decide (a ∈ Np.addrs v) && f (Np.buf_load b a)
  then Np.cast b value else Np.buf_load b a.
Proof.
  unfold st', Np.setitem_mask. rewrite get_buf_insert_eq by exact Halloc.
  unfold Np.view_flat. rewrite map_map. fold b.
  rewrite fold_store_load.
  - rewrite (existsb_mask (fun a => f (Np.buf_load b a))). reflexivity.
  - apply Forall_forall. intros [a0 m] Hin. simpl.
    apply list_elem_of_In, in_combine_l in Hin.
    pose proof (addrs_in_bounds st v Hb) as HF.
    rewrite Forall_forall in HF. apply HF, list_elem_of_In. exact Hin.
Qed.

Lemma setitem_mask_size :
  Np.buf_size (Np.get_buf st' (Np.base v)) = Np.buf_size b.
Proof.
  unfold st', Np.setitem_mask. rewrite get_buf_insert_eq by exact Halloc.
  apply fold_store_size.
Qed.

Lemma setitem_mask_cast x :
  Np.cast (Np.get_buf st' (Np.base v)) x = Np.cast b x.
Proof.
  unfold st', Np.setitem_mask. rewrite get_buf_insert_eq by exact Halloc.
  apply fold_store_cast.
Qed.

Lemma setitem_mask_in_bounds : Np.in_bounds st' v.
Proof.
  intros i j Hi Hj. rewrite setitem_mask_size. apply Hb; assumption.
Qed.

Lemma setitem_mask_length : length st' = length st.
Proof. unfold st', Np.setitem_mask. apply length_insert. Qed.

Lemma setitem_mask_other k :
  k <> Np.base v -> Np.get_buf st' k = Np.get_buf st k.
Proof.
  intros Hk. unfold st', Np.setitem_mask. apply get_buf_insert_ne. congruence.
Qed.

End MaskedAssignment.
(** ** remove_extrema, cell by cell *)

Section RemoveExtrema.

Variable percentile : list Qc -> Z -> option Qc.
Variables (st : Np.store) (v : Np.view) (upper lower : Qc).
Hypothesis Hb : Np.in_bounds st v.
Hypothesis Hupper : percentile (Np.view_flat st v) 99 = Some upper.
Hypothesis Hlower : percentile (Np.view_flat st v) 1 = Some lower.

Let b := Np.get_buf st (Np.base v).
Let st' := fst (remove_extrema percentile st v).


Lemma remove_extrema_load a :
  (Np.base v < length st)%nat ->
  Np.buf_load (Np.get_buf st' (Np.base v)) a =
  if bool_decide (a ∈ Np.addrs v) then clamp b lower upper (Np.buf_load b a)
  else Np.buf_load b a.
Proof.
  intros Halloc. unfold st', remove_extrema. rewrite Hupper, Hlower.
  cbn [fst].
  set (st1 := Np.setitem_mask st v _ upper).
  assert (Hb1 : Np.in_bounds st1 v) by (apply setitem_mask_in_bounds; assumption).
  assert (Ha1 : (Np.base v < length st1)%nat)
    by (unfold st1; rewrite setitem_mask_length; assumption).
  rewrite (setitem_mask_load st1 v (fun x => Qcltb x lower) lower Hb1 Ha1).
  unfold st1.
  rewrite (setitem_mask_cast st v (fun x => Qcltb upper x) upper Halloc).
  rewrite (setitem_mask_load st v (fun x => Qcltb upper x) upper Hb Halloc).
  fold b. unfold clamp.
  destruct (bool_decide (a ∈ Np.addrs v)); simpl; reflexivity.
Qed.


Lemma remove_extrema_size :
  (Np.base v < length st)%nat ->
  Np.buf_size (Np.get_buf st' (Np.base v)) = Np.buf_size b.
Proof.
  intros Halloc. unfold st', remove_extrema. rewrite Hupper, Hlower. cbn [fst].
  rewrite setitem_mask_size.
  - apply setitem_mask_size. exact Halloc.
  - rewrite setitem_mask_length. exact Halloc.
Qed.

End RemoveExtrema.

(** The call either returns its argument or raises IndexError with the
    store as it was. *)
Lemma remove_extrema_outcome percentile st v :
  snd (remove_extrema percentile st v) = Returned v \/
  remove_extrema percentile st v = (st, Raised "IndexError").
Proof.
  unfold remove_extrema.
  destruct (percentile (Np.view_flat st v) 99); [| right; reflexivity].
  destruct (percentile (Np.view_flat st v) 1); [left | right]; reflexivity.
Qed.

(** A call that returned found both percentiles. *)
Lemma remove_extrema_returned percentile st v st1 f :
  remove_extrema percentile st v = (st1, Returned f) ->
  f = v /\
  exists upper lower,
    percentile (Np.view_flat st v) 99 = Some upper /\
    percentile (Np.view_flat st v) 1 = Some lower.
Proof.
  unfold remove_extrema.
  destruct (percentile (Np.view_flat st v) 99) as [upper |]; [| discriminate].
  destruct (percentile (Np.view_flat st v) 1) as [lower |]; [| discriminate].
  intros [= _ <-]. split; [reflexivity | eauto].
Qed.


Lemma remove_extrema_length percentile st v :
  length (fst (remove_extrema percentile st v)) = length st.
Proof.
  unfold remove_extrema.
  destruct (percentile (Np.view_flat st v) 99); [| reflexivity].
  destruct (percentile (Np.view_flat st v) 1); cbn [fst];
    rewrite ?setitem_mask_length; reflexivity.
Qed.

Lemma remove_extrema_frame percentile st v k :
  k <> Np.base v ->
  Np.get_buf (fst (remove_extrema percentile st v)) k = Np.get_buf st k.
Proof.
  intros Hk. unfold remove_extrema.
  destruct (percentile (Np.view_flat st v) 99); [| reflexivity].
  destruct (percentile (Np.view_flat st v) 1); cbn [fst];
    rewrite ?setitem_mask_other by exact Hk; reflexivity.
Qed.

(** ** Clamping *)








(** ** Views that share a buffer *)






(** [remove_extrema] keeps the size of every buffer. *)
Lemma remove_extrema_sizes percentile st v k :
  Np.in_bounds st v ->
  Np.buf_size (Np.get_buf (fst (remove_extrema percentile st v)) k)
  = Np.buf_size (Np.get_buf st k).
Proof.
  intros Hb. destruct (decide (k = Np.base v)) as [-> | Hk].
  - destruct (remove_extrema percentile st v) as [st1 [f | exn]] eqn:E.
    + apply remove_extrema_returned in E as E'.
      destruct E' as (_ & upper & lower & Hu & Hl).
      destruct (Np.addrs v) as [| a0 l] eqn:Ea.
      * replace st1 with (fst (remove_extrema percentile st v))
          by (rewrite E; reflexivity).
        unfold remove_extrema. rewrite Hu, Hl.
        unfold Np.setitem_mask, Np.view_flat.
        rewrite Ea. cbn [fst map combine fold_left Np.base].
        unfold Np.get_buf.
        destruct (decide (Np.base v < length st)%nat) as [Hlt | Hge].
        -- rewrite !list_lookup_insert_eq;
             rewrite ?length_insert; try exact Hlt.
           simpl. destruct (st !! Np.base v) eqn:Eb; [reflexivity |].
           apply lookup_ge_None in Eb. lia.
        -- rewrite !list_insert_ge by (rewrite ?length_insert; lia).
           reflexivity.
      * destruct (addrs_inv v a0) as (i & j & Hi & Hj & _);
          [rewrite Ea; left |].
        replace st1 with (fst (remove_extrema percentile st v))
          by (rewrite E; reflexivity).
        eapply remove_extrema_size; try eassumption.
        eapply in_bounds_allocated; eassumption.
    + destruct (remove_extrema_outcome percentile st v) as [Ho | Ho].
      * rewrite E in Ho. discriminate Ho.
      * rewrite E in Ho. injection Ho as ->. reflexivity.
  - rewrite remove_extrema_frame by exact Hk. reflexivity.
Qed.

(** ** The slider *)

Lemma setValue_range s v : Qt.range (fst (Qt.setValue s v)) = Qt.range s.
Proof. unfold Qt.setValue. destruct (_ =? _); reflexivity. Qed.

Lemma setValue_value s v : Qt.value (fst (Qt.setValue s v)) = Qt.bound s v.
Proof.
  unfold Qt.setValue. destruct (Qt.bound s v =? Qt.value s) eqn:E; simpl.
  - apply Z.eqb_eq in E. congruence.
  - reflexivity.
Qed.

Lemma setRange_range s mn mx :
  Qt.range (fst (Qt.setRange s mn mx)) = (mn, Z.max mn mx).
Proof.
  unfold Qt.setRange. destruct (_ && _); [reflexivity |].
  rewrite setValue_range. reflexivity.
Qed.

Lemma slider_eta s : s = Qt.mkSlider (Qt.minimum s) (Qt.maximum s) (Qt.value s).
Proof. destruct s; reflexivity. Qed.

(** A range followed by a position inside it fixes the whole slider. *)
Lemma setRange_setPosition s mn mx p :
  mn <= p <= Z.max mn mx ->
  fst (Qt.setSliderPosition (fst (Qt.setRange s mn mx)) p)
  = Qt.mkSlider mn (Z.max mn mx) p.
Proof.
  intros Hp. unfold Qt.setSliderPosition.
  pose proof (setRange_range s mn mx) as Hr.
  set (s1 := fst (Qt.setRange s mn mx)) in *.
  pose proof (setValue_range s1 p) as Hr2.
  pose proof (setValue_value s1 p) as Hv.
  unfold Qt.range in *. rewrite Hr in Hr2.
  injection Hr as Hmin Hmax. injection Hr2 as Hmin2 Hmax2.
  rewrite (slider_eta (fst (Qt.setValue s1 p))), Hmin2, Hmax2, Hv.
  unfold Qt.bound. rewrite Hmin, Hmax. f_equal. lia.
Qed.

Lemma setValue_fst s v :
  fst (Qt.setValue s v) = Qt.mkSlider (Qt.minimum s) (Qt.maximum s) (Qt.bound s v).
Proof.
  unfold Qt.setValue. destruct (Qt.bound s v =? Qt.value s) eqn:E; [| reflexivity].
  apply Z.eqb_eq in E. rewrite E. destruct s; reflexivity.
Qed.

(** ** Sequencing of actions *)

Lemma andthen_fst {W I} (a b : Act.act W I) w :
  fst ((a >>> b) w) = fst (b (fst (a w))).
Proof.
  unfold Act.andthen. destruct (a w) as [w1 e1]. simpl.
  destruct (b w1) as [w2 e2]. reflexivity.
Qed.

Lemma andthen_snd {W I} (a b : Act.act W I) w :
  snd ((a >>> b) w) = snd (a w) ++ snd (b (fst (a w))).
Proof.
  unfold Act.andthen. destruct (a w) as [w1 e1]. simpl.
  destruct (b w1) as [w2 e2]. reflexivity.
Qed.
(** ** Circular shifts *)

Lemma rotate_0 {A} (l : list A) : Arr.rotate 0 l = l.
Proof.
  unfold Arr.rotate. destruct (length l =? 0)%nat eqn:E; [reflexivity |].
  rewrite Z.mod_0_l by (apply Nat.eqb_neq in E; lia).
  change (Z.to_nat 0) with 0%nat. rewrite Nat.sub_0_r.
  rewrite drop_all, take_ge by lia. reflexivity.
Qed.

Lemma rotate_period {A} (shift : Z) (l : list A) :
  Arr.rotate (shift + Z.of_nat (length l)) l = Arr.rotate shift l.
Proof.
  unfold Arr.rotate. destruct (length l =? 0)%nat eqn:E; [reflexivity |].
  apply Nat.eqb_neq in E.
  replace (shift + Z.of_nat (length l))
    with (shift + 1 * Z.of_nat (length l)) by lia.
  rewrite Z_mod_plus_full. reflexivity.
Qed.

Lemma rotate_length {A} (shift : Z) (l : list A) :
  length (Arr.rotate shift l) = length l.
Proof.
  unfold Arr.rotate. destruct (length l =? 0)%nat eqn:E; [reflexivity |].
  rewrite length_app, length_drop, length_take. lia.
Qed.

Lemma roll0_period {A} (shift : Z) (a : Arr.arr2 A) :
  length (Arr.rows a) = Arr.nrows a ->
  Arr.roll0 (shift + Z.of_nat (Arr.nrows a)) a = Arr.roll0 shift a.
Proof.
  intros H. unfold Arr.roll0. rewrite <- H, rotate_period. reflexivity.
Qed.

Lemma roll0_0 {A} (a : Arr.arr2 A) : Arr.roll0 0 a = a.
Proof. unfold Arr.roll0. rewrite rotate_0. destruct a; reflexivity. Qed.

Lemma view_read_wf st v : Arr.wf (Arr.view_read st v).
Proof.
  unfold Arr.wf, Arr.view_read. simpl. split.
  - rewrite length_map, length_seq. reflexivity.
  - apply Forall_forall. intros r Hr.
    apply list_elem_of_In, in_map_iff in Hr as (i & <- & _).
    rewrite length_map, length_seq. reflexivity.
Qed.

(** ** The difference of an array with itself *)




Lemma stretch_same {A} (l : list A) : Arr.stretch (length l) l = l.
Proof. unfold Arr.stretch. rewrite Nat.eqb_refl. reflexivity. Qed.

Lemma bdim_same n : Arr.bdim n n = Some n.
Proof. unfold Arr.bdim. rewrite Nat.eqb_refl. reflexivity. Qed.

Lemma expand_wf {A} (a : Arr.arr2 A) :
  Arr.wf a -> Arr.expand (Arr.nrows a) (Arr.ncols a) a = Arr.rows a.
Proof.
  destruct a as [n c rs]. unfold Arr.wf, Arr.expand. simpl.
  intros [Hl Hr]. rewrite <- Hl, stretch_same. clear Hl.
  induction Hr as [| r rs' Hlen _ IH]; simpl; [reflexivity |].
  rewrite IH, <- Hlen, stretch_same. reflexivity.
Qed.


(** ** OverlapViewer: what the actions keep *)

Section OverlapFacts.
Import OverlapViewer.

Variable H : Host.t.

Let shape_msg : string := "Shape {} of {} is different to {} of {}".

(** What a rendering attempt leaves: an image, or the exception of a
    subtraction that cannot be broadcast or of a shift that is no integer. *)
Let drawn (e : Act.event image) : Prop :=
  Act.is_render e = true \/ e = Act.Raise "ValueError" \/
  e = Act.Raise "TypeError".

Lemma overlap_update_keeps st w :
  first (fst (update_image H st w)) = first w /\
  second (fst (update_image H st w)) = second w /\
  slider (fst (update_image H st w)) = slider w.
Proof.
  unfold update_image.
  destruct (first w) eqn:Ef, (second w) eqn:Es; simpl; auto.
  destruct (shift H _ _); simpl; auto.
  destruct (Arr.map2 _ _ _); simpl; auto.
Qed.

Lemma overlap_on_slider_keeps st f w :
  first (fst (on_slider H st f w)) = first w /\
  second (fst (on_slider H st f w)) = second w /\
  slider (fst (on_slider H st f w)) = fst (f (slider w)).
Proof.
  unfold on_slider. destruct (f (slider w)) as [s emitted]. simpl.
  destruct emitted; simpl; [| auto].
  destruct (overlap_update_keeps st (with_slider w s)) as (H1 & H2 & H3).
  rewrite H1, H2, H3. auto.
Qed.

Lemma overlap_warn_keeps f s w : fst (warn_shapes f s w) = w.
Proof. unfold warn_shapes. destruct (decide _); reflexivity. Qed.

(** [update_image] once both images are set and the shift is an integer. *)
Lemma overlap_update_loaded st w f s k :
  first w = Some f -> second w = Some s ->
  shift H s (Qt.value (slider w)) = Some k ->
  update_image H st w =
  match Arr.map2 (Host.subtract H) (Arr.roll0 k (Arr.view_read st s))
          (Arr.view_read st f) with
  | Some img => (mkState (Some img) (slider w) (first w) (second w),
                 [Act.SetImage img])
  | None => (w, [Act.Raise "ValueError"])
  end.
Proof.
  intros Hf Hs Hk. unfold update_image. rewrite Hf, Hs, Hk. reflexivity.
Qed.

Lemma overlap_update_events st w f s :
  first w = Some f -> second w = Some s ->
  exists e, snd (update_image H st w) = [e] /\ drawn e.
Proof.
  intros Hf Hs. unfold update_image. rewrite Hf, Hs.
  destruct (shift H s (Qt.value (slider w))) as [k |].
  - destruct (Arr.map2 _ _ _) as [img |]; eexists; (split; [reflexivity |]).
    + left. reflexivity.
    + right. left. reflexivity.
  - eexists. split; [reflexivity |]. right. right. reflexivity.
Qed.

Lemma overlap_on_slider_events st g w f s :
  first w = Some f -> second w = Some s ->
  Forall drawn (snd (on_slider H st g w)).
Proof.
  intros Hf Hs. unfold on_slider. destruct (g (slider w)) as [sl emitted].
  destruct emitted; simpl; [| constructor].
  destruct (overlap_update_events st (with_slider w sl) f s Hf Hs) as (e & He & Hd).
  rewrite He. constructor; [exact Hd | constructor].
Qed.

(** [show] sets the range to [0, height]; when the slider accepts the
    midpoint it is placed there, within the range. *)
Lemma show_fields st f s w :
  let w' := fst (show H st f s w) in
  let h := Z.of_nat (Np.vrows f) in
  first w' = first w /\ second w' = second w /\
  Qt.range (slider w') = (0, h) /\
  (forall p, midpoint H f = Some p ->
     slider w' = Qt.mkSlider 0 h (Z.max 0 (Z.min h p))) /\
  (midpoint H f = None ->
     slider w' = fst (Qt.setRange (slider w) 0 h)).
Proof.
  intros w' h. unfold w', show. rewrite !andthen_fst, overlap_warn_keeps.
  fold h.
  set (w1 := fst (on_slider H st (fun sl => Qt.setRange sl 0 h) w)).
  destruct (overlap_on_slider_keeps st (fun sl => Qt.setRange sl 0 h) w)
    as (F1 & S1 & L1). fold w1 in F1, S1, L1.
  assert (Hr1 : Qt.range (slider w1) = (0, h)).
  { rewrite L1, setRange_range. f_equal. unfold h. lia. }
  destruct (midpoint H f) as [p |].
  - rewrite andthen_fst.
    set (w2 := fst (on_slider H st (fun sl => Qt.setSliderPosition sl p) w1)).
    destruct (overlap_on_slider_keeps st
                (fun sl => Qt.setSliderPosition sl p) w1) as (F2 & S2 & L2).
    fold w2 in F2, S2, L2.
    destruct (overlap_update_keeps st w2) as (F3 & S3 & L3).
    assert (Hs2 : slider w2 = Qt.mkSlider 0 h (Z.max 0 (Z.min h p))).
    { rewrite L2. unfold Qt.setSliderPosition. rewrite setValue_fst.
      unfold Qt.bound. unfold Qt.range in Hr1. injection Hr1 as -> ->.
      reflexivity. }
    rewrite F3, S3, L3, F2, S2, F1, S1, Hs2. repeat split.
    + intros p' [= <-]. reflexivity.
    + discriminate.
  - cbn [raise fst]. rewrite F1, S1, Hr1. repeat split.
    + discriminate.
    + intros _. exact L1.
Qed.

(** With both images stored, [show] logs the shape warning or nothing, and
    then only rendering attempts; it ends with one. *)
Lemma show_events st f s w f0 s0 :
  first w = Some f0 -> second w = Some s0 ->
  exists rest e,
    snd (show H st f s w) = snd (warn_shapes f s w) ++ rest /\
    Forall drawn rest /\ last rest = Some e.
Proof.
  intros Hf Hs. unfold show. rewrite andthen_snd, overlap_warn_keeps.
  set (h := Z.of_nat (Np.vrows f)).
  rewrite andthen_snd.
  set (w1 := fst (on_slider H st (fun sl => Qt.setRange sl 0 h) w)).
  destruct (overlap_on_slider_keeps st (fun sl => Qt.setRange sl 0 h) w)
    as (F1 & S1 & _). fold w1 in F1, S1.
  pose proof (overlap_on_slider_events st (fun sl => Qt.setRange sl 0 h) w
                f0 s0 Hf Hs) as E1.
  set (ev1 := snd (on_slider H st (fun sl => Qt.setRange sl 0 h) w)) in *.
  destruct (midpoint H f) as [p |].
  - rewrite andthen_snd.
    set (w2 := fst (on_slider H st (fun sl => Qt.setSliderPosition sl p) w1)).
    destruct (overlap_on_slider_keeps st
                (fun sl => Qt.setSliderPosition sl p) w1) as (F2 & S2 & _).
    fold w2 in F2, S2.
    pose proof (overlap_on_slider_events st
                  (fun sl => Qt.setSliderPosition sl p) w1 f0 s0
                  (eq_trans F1 Hf) (eq_trans S1 Hs)) as E2.
    destruct (overlap_update_events st w2 f0 s0
                (eq_trans F2 (eq_trans F1 Hf)) (eq_trans S2 (eq_trans S1 Hs)))
      as (e & He & Hd).
    rewrite He. eexists _, e. split; [reflexivity |]. split.
    + repeat (apply Forall_app; split); try assumption.
      constructor; [exact Hd | constructor].
    + rewrite !app_assoc. apply last_snoc.
  - eexists _, (Act.Raise "TypeError"). split; [reflexivity |]. split.
    + apply Forall_app. split; [exact E1 |].
      constructor; [right; right; reflexivity | constructor].
    + cbn [raise snd]. apply last_snoc.
Qed.

Lemma show_no_index_error st f s w f0 s0 :
  first w = Some f0 -> second w = Some s0 ->
  Act.Raise "IndexError" ∉ snd (show H st f s w).
Proof.
  intros Hf Hs Hin.
  destruct (show_events st f s w f0 s0 Hf Hs) as (rest & e & Hev & Hd & _).
  rewrite Hev in Hin. apply elem_of_app in Hin as [Hin | Hin].
  - unfold warn_shapes in Hin. destruct (decide _); cbn [snd] in Hin.
    + inversion Hin.
    + apply list_elem_of_singleton in Hin. discriminate Hin.
  - rewrite Forall_forall in Hd.
    destruct (Hd _ Hin) as [Hc | [Hc | Hc]]; discriminate Hc.
Qed.


(** The three ways [set_images] can go: the first [remove_extrema] raises,
    the second one raises, or both return and the images are shown. *)
Lemma set_images_cases st a b w :
  let pct := Host.percentile H in
  let f := Np.T a in
  let s := Np.flipud (Np.T b) in
  let st1 := fst (remove_extrema pct st f) in
  let st2 := fst (remove_extrema pct st1 s) in
  (remove_extrema pct st f = (st, Raised "IndexError") /\
   set_images H st a b w = (st, (w, [Act.Raise "IndexError"]))) \/
  (snd (remove_extrema pct st f) = Returned f /\
   remove_extrema pct st1 s = (st1, Raised "IndexError") /\
   set_images H st a b w
   = (st1, (mkState (image_item w) (slider w) (Some f) (second w),
            [Act.Raise "IndexError"]))) \/
  (snd (remove_extrema pct st f) = Returned f /\
   snd (remove_extrema pct st1 s) = Returned s /\
   set_images H st a b w
   = (st2, show H st2 f s
             (mkState (image_item w) (slider w) (Some f) (Some s)))).
Proof.
  intros pct f s st1 st2. unfold set_images. fold pct f s.
  destruct (remove_extrema_outcome pct st f) as [H1 | H1].
  - right. unfold st2, st1.
    destruct (remove_extrema pct st f) as [st1' o1]. cbn [fst snd] in *.
    subst o1.
    destruct (remove_extrema_outcome pct st1' s) as [H2 | H2].
    + right. destruct (remove_extrema pct st1' s) as [st2' o2].
      cbn [fst snd] in *. subst o2. auto.
    + left. rewrite H2. auto.
  - left. rewrite H1. auto.
Qed.

(** [set_images] raises IndexError exactly when one of the two
    [remove_extrema] calls does; otherwise it stores both views and goes
    on to show them. *)
Lemma set_images_shown st a b w :
  Act.Raise "IndexError" ∉ snd (snd (set_images H st a b w)) ->
  let f := Np.T a in
  let s := Np.flipud (Np.T b) in
  let st1 := fst (remove_extrema (Host.percentile H) st f) in
  let st2 := fst (remove_extrema (Host.percentile H) st1 s) in
  snd (remove_extrema (Host.percentile H) st f) = Returned f /\
  snd (remove_extrema (Host.percentile H) st1 s) = Returned s /\
  set_images H st a b w
  = (st2, show H st2 f s (mkState (image_item w) (slider w) (Some f) (Some s))).
Proof.
  intros Hno f s st1 st2.
  destruct (set_images_cases st a b w) as [(_ & E) | [(_ & _ & E) | E]].
  - exfalso. apply Hno. rewrite E. left.
  - exfalso. apply Hno. rewrite E. left.
  - exact E.
Qed.

Lemma set_images_raised st a b w :
  Act.Raise "IndexError" ∈ snd (snd (set_images H st a b w)) ->
  snd (snd (set_images H st a b w)) = [Act.Raise "IndexError"] /\
  slider (fst (snd (set_images H st a b w))) = slider w /\
  image_item (fst (snd (set_images H st a b w))) = image_item w /\
  second (fst (snd (set_images H st a b w))) = second w.
Proof.
  intros Hin.
  destruct (set_images_cases st a b w) as [(_ & E) | [(_ & _ & E) | (_ & _ & E)]].
  - rewrite E. auto.
  - rewrite E. auto.
  - exfalso. rewrite E in Hin. cbn [snd] in Hin.
    eapply show_no_index_error; [| | exact Hin]; reflexivity.
Qed.


End OverlapFacts.

(** ** In-place clamping reaches the caller's arrays *)



(** A masked assignment through a view without cells changes no buffer. *)
Lemma setitem_mask_nil st v mask value k :
  Np.addrs v = [] ->
  Np.get_buf (Np.setitem_mask st v mask value) k = Np.get_buf st k.
Proof.
  intros Ha. unfold Np.setitem_mask. rewrite Ha. cbn [combine fold_left].
  destruct (decide (k = Np.base v)) as [-> | Hk].
  - destruct (decide (Np.base v < length st)%nat) as [Hlt | Hge].
    + apply get_buf_insert_eq. exact Hlt.
    + rewrite list_insert_ge by lia. reflexivity.
  - apply get_buf_insert_ne. congruence.
Qed.

(** Cells of the view's buffer that the view does not address are not
    written. *)
Lemma remove_extrema_outside percentile st v a :
  Np.in_bounds st v -> a ∉ Np.addrs v ->
  Np.buf_load (Np.get_buf (fst (remove_extrema percentile st v)) (Np.base v)) a
  = Np.buf_load (Np.get_buf st (Np.base v)) a.
Proof.
  intros Hb Ha.
  destruct (remove_extrema percentile st v) as [st1 [f | exn]] eqn:E.
  - apply remove_extrema_returned in E as E'.
    destruct E' as (_ & upper & lower & Hu & Hl).
    cbn [fst].
    replace st1 with (fst (remove_extrema percentile st v))
      by (rewrite E; reflexivity).
    destruct (Np.addrs v) as [| a0 l] eqn:Ea.
    + unfold remove_extrema. rewrite Hu, Hl. cbn [fst].
      rewrite !setitem_mask_nil by exact Ea. reflexivity.
    + destruct (addrs_inv v a0) as (i & j & Hi & Hj & _);
        [rewrite Ea; left |].
      rewrite (remove_extrema_load percentile st v upper lower Hb Hu Hl a)
        by (eapply in_bounds_allocated; eassumption).
      rewrite bool_decide_eq_false_2; [reflexivity |].
      rewrite Ea. exact Ha.
  - destruct (remove_extrema_outcome percentile st v) as [Ho | Ho].
    + rewrite E in Ho. discriminate Ho.
    + rewrite E in Ho. injection Ho as ->. reflexivity.
Qed.



(** ** A roll by a full period *)

(** C5 (as amended): rolling an array along its first axis by the full
    length [shape[0]] gives the same array as rolling it by 0 (the array
    itself); hence [OverlapViewer.update_image] pushes the same difference
    image, and the same events, at two slider positions where the whole
    numbers of rows [np.roll] shifts by differ by [shape[0]].  Under
    Python 2, where [shape[0] / 2 - position] is an integer, the positions
    [p] and [p - shape[0]] are two such positions. *)
Theorem roll_full_period
  (H : Host.t) (st : Np.store) (w : OverlapViewer.state) (s : Np.view)
  (lo hi p q kp kq : Z) :
  OverlapViewer.second w = Some s ->
  let h := Z.of_nat (Np.vrows s) in
  OverlapViewer.shift H s p = Some kp ->
  OverlapViewer.shift H s q = Some kq ->
  kq = kp + h ->
  let second := Arr.view_read st s in
  let at_pos x :=
    OverlapViewer.update_image H st
      (OverlapViewer.with_slider w (Qt.mkSlider lo hi x)) in
  (forall (A : Type) (a : Arr.arr2 A), Arr.wf a ->
     Arr.roll0 (Z.of_nat (Arr.nrows a)) a = Arr.roll0 0 a /\
     Arr.roll0 0 a = a) /\
  Arr.roll0 h second = Arr.roll0 0 second /\
  OverlapViewer.image_item (fst (at_pos p)) =
  OverlapViewer.image_item (fst (at_pos q)) /\
  snd (at_pos p) = snd (at_pos q) /\
  (Host.version H = Py.Python2 ->
   forall x, OverlapViewer.shift H s x = Some (h / 2 - x)).
Proof.
  intros Hs h Hkp Hkq Hk second at_pos.
  assert (Hgen : forall (A : Type) (a : Arr.arr2 A), Arr.wf a ->
            Arr.roll0 (Z.of_nat (Arr.nrows a)) a = Arr.roll0 0 a /\
            Arr.roll0 0 a = a).
  { intros A a [Hl _]. split; [| apply roll0_0].
    rewrite <- (roll0_period 0 a Hl). reflexivity. }
  split; [exact Hgen |]. split.
  { apply (Hgen _ second (view_read_wf st s)). }
  assert (Hroll : Arr.roll0 kq (Arr.view_read st s)
                  = Arr.roll0 kp (Arr.view_read st s)).
  { rewrite Hk. apply roll0_period, view_read_wf. }
  split; [| split].
  - unfold at_pos, OverlapViewer.update_image, OverlapViewer.with_slider.
    cbn [OverlapViewer.first OverlapViewer.second OverlapViewer.slider Qt.value].
    rewrite Hs, Hkp, Hkq, Hroll.
    destruct (OverlapViewer.first w); [| reflexivity].
    destruct (Arr.map2 _ _ _); reflexivity.
  - unfold at_pos, OverlapViewer.update_image, OverlapViewer.with_slider.
    cbn [OverlapViewer.first OverlapViewer.second OverlapViewer.slider Qt.value].
    rewrite Hs, Hkp, Hkq, Hroll.
    destruct (OverlapViewer.first w); [| reflexivity].
    destruct (Arr.map2 _ _ _); reflexivity.
  - intros Hv x. unfold OverlapViewer.shift. rewrite Hv. reflexivity.
Qed.

Lemma roll_full_period_witness :
  let st := [Np.FloatBuf (map Qc_of_Z [1; 2; 3; 4; 5; 6])] in
  let s := Np.mkView 0 0 3 2 2 1 in
  let w := OverlapViewer.mkState None (Qt.mkSlider 0 3 1) (Some s) (Some s) in
  Arr.roll0 3 (Arr.view_read st s) = Arr.roll0 0 (Arr.view_read st s) /\
  OverlapViewer.image_item
    (fst (OverlapViewer.update_image Host.python2 st
            (OverlapViewer.with_slider w (Qt.mkSlider 0 3 3)))) =
  OverlapViewer.image_item
    (fst (OverlapViewer.update_image Host.python2 st
            (OverlapViewer.with_slider w (Qt.mkSlider 0 3 0)))).
Proof.
  intros st s w.
  pose proof (roll_full_period Host.python2 st w s 0 3 3 0 (-2) 1
                eq_refl eq_refl eq_refl eq_refl) as (_ & H1 & H2 & _).
  split; [exact H1 | exact H2].
Defined.

(** C5 (as stated) fails in its second half under Python 3.  For a second
    image of height 3 the shift amounts [3 / 2 - position] at the positions
    0 and 3 are the floats 1.5 and -1.5, which differ by [shape[0]]; but
    [np.roll] shifts by whole rows, by 1 and by -1 here, and the two
    displayed images differ. *)
Lemma update_image_period_counterexample :
  let st := [Np.FloatBuf (map Qc_of_Z [1; 2; 3; 4; 5; 6])] in
  let s := Np.mkView 0 0 3 2 2 1 in
  let w := OverlapViewer.mkState None (Qt.mkSlider 0 3 1) (Some s) (Some s) in
  let at_pos x :=
    OverlapViewer.update_image Host.python3 st
      (OverlapViewer.with_slider w (Qt.mkSlider 0 3 x)) in
  let amount x := Py.sub (Py.div Py.Python3 (Z.of_nat (Np.vrows s)) 2) x in
  let shown x :=
    option_map (fun img => map (map this) (Arr.rows img))
      (OverlapViewer.image_item (fst (at_pos x))) in
  (exists a0 a3,
     amount 0 = Py.Float a0 /\ amount 3 = Py.Float a3 /\
     (a0 - a3)%Qc = Qc_of_Z (Z.of_nat (Np.vrows s))) /\
  OverlapViewer.shift Host.python3 s 0 = Some 1 /\
  OverlapViewer.shift Host.python3 s 3 = Some (-1) /\
  shown 0 = Some [[4 # 1; 4 # 1]; [-2 # 1; -2 # 1]; [-2 # 1; -2 # 1]]%Q /\
  shown 3 = Some [[2 # 1; 2 # 1]; [2 # 1; 2 # 1]; [-4 # 1; -4 # 1]]%Q /\
  OverlapViewer.image_item (fst (at_pos 0))
  <> OverlapViewer.image_item (fst (at_pos 3)).
Proof.
  intros st s w at_pos amount shown.
  assert (H0 : shown 0
               = Some [[4 # 1; 4 # 1]; [-2 # 1; -2 # 1]; [-2 # 1; -2 # 1]]%Q)
    by (vm_compute; reflexivity).
  assert (H3 : shown 3
               = Some [[2 # 1; 2 # 1]; [2 # 1; 2 # 1]; [-4 # 1; -4 # 1]]%Q)
    by (vm_compute; reflexivity).
  split.
  { do 2 eexists. split; [reflexivity |]. split; [reflexivity |].
    apply Qc_is_canon. vm_compute. reflexivity. }
  split; [vm_compute; reflexivity |].
  split; [vm_compute; reflexivity |].
  split; [exact H0 |]. split; [exact H3 |].
  intros Heq. unfold shown in H0, H3. rewrite Heq, H3 in H0.
  discriminate H0.
Qed.

(** ** A symmetric pair of images *)




(** ** ProjectionViewer and SliceViewer: what the actions keep *)

Section ProjectionFacts.
Import ProjectionViewer.

Variable read : pyfiles -> Z -> Z -> Arr.arr2 Qc * Arr.arr2 Qc.
Variable dims : pyfiles -> Z.

Lemma projection_update_keeps w :
  slider (fst (update_image read w)) = slider w /\
  filenames (fst (update_image read w)) = filenames w /\
  ffc_correction (fst (update_image read w)) = ffc_correction w.
Proof.
  unfold update_image. destruct (truthy (filenames w)); [| auto].
  destruct (read _ _ _) as [proj flat].
  destruct (if ffc_correction w then _ else _); simpl; auto.
Qed.

Lemma projection_on_slider_keeps f w :
  slider (fst (on_slider read f w)) = fst (f (slider w)) /\
  filenames (fst (on_slider read f w)) = filenames w /\
  ffc_correction (fst (on_slider read f w)) = ffc_correction w.
Proof.
  unfold on_slider. destruct (f (slider w)) as [s emitted]. simpl.
  destruct emitted; simpl; [| auto].
  destruct (projection_update_keeps (with_slider w s)) as (H1 & H2 & H3).
  rewrite H1, H2, H3. auto.
Qed.

(** The widget right after [load_files], up to the displayed image. *)
Lemma projection_load_files_fields fnames ffc w :
  let w' := fst (load_files read dims fnames ffc w) in
  slider w' = Qt.mkSlider 0 (Z.max 0 (dims fnames - 1)) 0 /\
  filenames w' = fnames /\ ffc_correction w' = ffc.
Proof.
  unfold load_files. rewrite !andthen_fst. cbn [fst].
  set (w0 := mkState (image_item w) (slider w) fnames ffc).
  set (w1 := fst (on_slider read (fun s => Qt.setRange s 0 (dims fnames - 1)) w0)).
  set (w2 := fst (on_slider read (fun s => Qt.setSliderPosition s 0) w1)).
  destruct (projection_on_slider_keeps
              (fun s => Qt.setRange s 0 (dims fnames - 1)) w0) as (S1 & F1 & C1).
  destruct (projection_on_slider_keeps
              (fun s => Qt.setSliderPosition s 0) w1) as (S2 & F2 & C2).
  destruct (projection_update_keeps w2) as (S3 & F3 & C3).
  fold w1 in S1, F1, C1, S2, F2, C2. fold w2 in S2, F2, C2.
  rewrite S3, F3, C3, S2, F2, C2, S1, F1, C1. repeat split.
  apply setRange_setPosition. lia.
Qed.

End ProjectionFacts.

Section SliceFacts.
Import SliceViewer.

Variable tiff : string -> Arr.arr2 Qc.

Lemma slice_update_keeps w :
  slider (fst (update_image tiff w)) = slider w /\
  filenames (fst (update_image tiff w)) = filenames w.
Proof.
  unfold update_image. destruct (truthy _); [| auto].
  destruct (Py.getitem _ _); simpl; auto.
Qed.

Lemma slice_on_slider_keeps f w :
  slider (fst (on_slider tiff f w)) = fst (f (slider w)) /\
  filenames (fst (on_slider tiff f w)) = filenames w.
Proof.
  unfold on_slider. destruct (f (slider w)) as [s emitted]. simpl.
  destruct emitted; simpl; [| auto].
  destruct (slice_update_keeps (with_slider w s)) as (H1 & H2).
  rewrite H1, H2. auto.
Qed.

Lemma slice_load_files_fields fnames w :
  let w' := fst (load_files tiff fnames w) in
  slider w' = Qt.mkSlider 0 (Z.max 0 (Z.of_nat (length fnames) - 1)) 0 /\
  filenames w' = fnames.
Proof.
  unfold load_files. rewrite !andthen_fst. cbn [fst].
  set (n := Z.of_nat (length fnames) - 1).
  set (w0 := mkState (image_item w) (slider w) fnames).
  set (w1 := fst (on_slider tiff (fun s => Qt.setRange s 0 n) w0)).
  set (w2 := fst (on_slider tiff (fun s => Qt.setSliderPosition s 0) w1)).
  destruct (slice_on_slider_keeps (fun s => Qt.setRange s 0 n) w0) as (S1 & F1).
  destruct (slice_on_slider_keeps (fun s => Qt.setSliderPosition s 0) w1)
    as (S2 & F2).
  destruct (slice_update_keeps w2) as (S3 & F3).
  fold w1 in S1, F1, S2, F2. fold w2 in S2, F2.
  rewrite S3, F3, S2, F2, S1, F1. split; [| reflexivity].
  apply setRange_setPosition. lia.
Qed.

End SliceFacts.

(** ** The slider's range after a load *)

(** C3 (as amended): after a load the slider's range is [0, max(N-1, 0)]:
    [0, N-1] when the dataset has N >= 1 frames (ProjectionViewer: the
    first dimension of the dataset; SliceViewer: [len(filenames)]) and
    [0, 0] when it has none, since the slider never keeps a maximum below
    its minimum.  For OverlapViewer the range is [0, H] with H the first
    extent of the transposed first image, that is H + 1 positions, once
    [set_images] is past the two [remove_extrema] calls; when one of them
    raises IndexError (an empty image), the slider is not touched and keeps
    the range it had. *)
Theorem slider_range_after_load
  (read : pyfiles -> Z -> Z -> Arr.arr2 Qc * Arr.arr2 Qc) (dims : pyfiles -> Z)
  (tiff : string -> Arr.arr2 Qc) (H : Host.t) (st : Np.store)
  (pw : ProjectionViewer.state) (sw : SliceViewer.state) (ow : OverlapViewer.state)
  (fname : pyfiles) (ffc : bool) (fnames : list string) (a b : Np.view) :
  let loaded := snd (OverlapViewer.set_images H st a b ow) in
  Qt.range (ProjectionViewer.slider
              (fst (ProjectionViewer.load_files read dims fname ffc pw)))
    = (0, Z.max 0 (dims fname - 1)) /\
  Qt.range (SliceViewer.slider (fst (SliceViewer.load_files tiff fnames sw)))
    = (0, Z.max 0 (Z.of_nat (length fnames) - 1)) /\
  (Act.Raise "IndexError" ∉ snd loaded ->
   Qt.range (OverlapViewer.slider (fst loaded))
     = (0, Z.of_nat (Np.vrows (Np.T a)) + 1 - 1)) /\
  (Act.Raise "IndexError" ∈ snd loaded ->
   OverlapViewer.slider (fst loaded) = OverlapViewer.slider ow).
Proof.
  intros loaded.
  destruct (projection_load_files_fields read dims fname ffc pw) as (H1 & _).
  destruct (slice_load_files_fields tiff fnames sw) as (H2 & _).
  rewrite H1, H2. unfold Qt.range at 1 2. cbn [Qt.minimum Qt.maximum].
  split; [reflexivity |]. split; [reflexivity |]. split.
  - intros Hno. destruct (set_images_shown H st a b ow Hno) as (_ & _ & E).
    unfold loaded. rewrite E. cbn [snd].
    destruct (show_fields H
                (fst (remove_extrema (Host.percentile H)
                        (fst (remove_extrema (Host.percentile H) st (Np.T a)))
                        (Np.flipud (Np.T b))))
                (Np.T a) (Np.flipud (Np.T b))
                (OverlapViewer.mkState (OverlapViewer.image_item ow)
                   (OverlapViewer.slider ow) (Some (Np.T a))
                   (Some (Np.flipud (Np.T b)))))
      as (_ & _ & R & _).
    rewrite R. f_equal. lia.
  - intros Hin. apply (set_images_raised H st a b ow) in Hin as (_ & Hs & _).
    exact Hs.
Qed.

Lemma slider_range_after_load_witness :
  let st := [Np.FloatBuf (map Qc_of_Z [1; 2; 3; 4; 5; 6]); Np.FloatBuf []] in
  let a := Np.mkView 0 0 2 3 3 1 in
  let e := Np.mkView 1 0 0 3 3 1 in
  let loaded := fst (snd (OverlapViewer.set_images Host.python2 st a a
                            OverlapViewer.init)) in
  let failed := fst (snd (OverlapViewer.set_images Host.python2 st e a loaded)) in
  Qt.range (OverlapViewer.slider loaded) = (0, 3 + 1 - 1) /\
  OverlapViewer.slider failed = OverlapViewer.slider loaded.
Proof.
  intros st a e loaded failed.
  pose (read := fun (_ : pyfiles) (_ _ : Z) => (Arr.ones 1 1, Arr.ones 1 1)).
  pose (tiff := fun _ : string => Arr.ones 1 1).
  split.
  - pose proof (slider_range_after_load read (fun _ => 1) tiff Host.python2 st
                  ProjectionViewer.init
                  (SliceViewer.mkState None Qt.new_slider [])
                  OverlapViewer.init PyNone false [] a a) as (_ & _ & Hr & _).
    apply Hr. intros Hin.
    apply (set_images_raised Host.python2) in Hin as (Hone & _).
    vm_compute in Hone. discriminate Hone.
  - pose proof (slider_range_after_load read (fun _ => 1) tiff Host.python2 st
                  ProjectionViewer.init
                  (SliceViewer.mkState None Qt.new_slider [])
                  loaded PyNone false [] e a) as (_ & _ & _ & Hk).
    apply Hk. vm_compute. left.
Defined.

(** C3 (as stated) fails for an empty dataset: [load_files([])] calls
    [setRange(0, -1)], which Qt stores as the range [0, 0], not
    [0, N-1] = [0, -1]. *)
Lemma slider_range_empty_counterexample :
  let tiff := fun _ : string => Arr.mkArr 0 0 ([] : list (list Qc)) in
  let w := SliceViewer.mkState None Qt.new_slider ["a"; "b"]%string in
  let fnames := ([] : list string) in
  Qt.range (SliceViewer.slider (fst (SliceViewer.load_files tiff fnames w)))
    = (0, 0) /\
  Qt.range (SliceViewer.slider (fst (SliceViewer.load_files tiff fnames w)))
    <> (0, Z.of_nat (length fnames) - 1).
Proof.
  intros tiff w fnames. split; [vm_compute; reflexivity |].
  vm_compute. intros H. discriminate H.
Qed.

(** ** Before anything is loaded *)

(** C9 (as amended): while [filenames] is unset or empty (ProjectionViewer,
    SliceViewer), or either image is [None] (OverlapViewer), [update_image]
    renders nothing and leaves the widget as it is; OverlapViewer logs the
    warning "No images set yet" then, the other two do nothing at all. *)
Theorem unloaded_update_image_noop
  (read : pyfiles -> Z -> Z -> Arr.arr2 Qc * Arr.arr2 Qc)
  (tiff : string -> Arr.arr2 Qc) (H : Host.t) (st : Np.store)
  (pw : ProjectionViewer.state) (sw : SliceViewer.state) (ow : OverlapViewer.state) :
  truthy (ProjectionViewer.filenames pw) = false ->
  SliceViewer.filenames sw = [] ->
  OverlapViewer.first ow = None \/ OverlapViewer.second ow = None ->
  ProjectionViewer.update_image read pw = (pw, []) /\
  SliceViewer.update_image tiff sw = (sw, []) /\
  OverlapViewer.update_image H st ow = (ow, [Act.Warn "No images set yet"]) /\
  forallb (fun e => negb (Act.is_render e))
    (snd (OverlapViewer.update_image H st ow)) = true.
Proof.
  intros Hp Hs Ho.
  assert (H3 : OverlapViewer.update_image H st ow
               = (ow, [Act.Warn "No images set yet"])).
  { unfold OverlapViewer.update_image.
    destruct Ho as [Ho | Ho]; rewrite Ho; [reflexivity |].
    destruct (OverlapViewer.first ow); reflexivity. }
  split; [| split; [| split]].
  - unfold ProjectionViewer.update_image. rewrite Hp. reflexivity.
  - unfold SliceViewer.update_image. rewrite Hs. reflexivity.
  - exact H3.
  - rewrite H3. reflexivity.
Qed.

Lemma unloaded_update_image_noop_witness :
  let read := fun (_ : pyfiles) (_ _ : Z) => (Arr.ones 1 1, Arr.ones 1 1) in
  let tiff := fun _ : string => Arr.ones 1 1 in
  ProjectionViewer.update_image read ProjectionViewer.init
    = (ProjectionViewer.init, []) /\
  SliceViewer.update_image tiff (fst (SliceViewer.init tiff []))
    = (fst (SliceViewer.init tiff []), []) /\
  OverlapViewer.update_image Host.python2 [] OverlapViewer.init
    = (OverlapViewer.init, [Act.Warn "No images set yet"]).
Proof.
  intros read tiff.
  pose proof (unloaded_update_image_noop read tiff Host.python2 []
                ProjectionViewer.init (fst (SliceViewer.init tiff []))
                OverlapViewer.init eq_refl eq_refl (or_introl eq_refl))
    as (H1 & H2 & H3 & _).
  split; [exact H1 | split; [exact H2 | exact H3]].
Defined.

(** C9 (as stated) fails after a load that raised: the methods store their
    arguments first and call what can fail afterwards.  Under Python 3,
    [set_images] on two 2 x 3 images stores both, sets the range and then
    stops with the TypeError of [setSliderPosition(1.5)]; no load has
    succeeded, yet the next [update_image] finds both images set and
    renders. *)
Lemma failed_load_renders_counterexample :
  let st := [Np.FloatBuf (map Qc_of_Z [1; 2; 3; 4; 5; 6]);
             Np.FloatBuf (map Qc_of_Z [3; 2; 1; 6; 5; 4])] in
  let a := Np.mkView 0 0 2 3 3 1 in
  let b := Np.mkView 1 0 2 3 3 1 in
  let r := OverlapViewer.set_images Host.python3 st a b OverlapViewer.init in
  let after := OverlapViewer.update_image Host.python3 (fst r) (fst (snd r)) in
  snd (snd r) = [Act.Raise "TypeError"] /\
  OverlapViewer.image_item (fst (snd r)) = None /\
  OverlapViewer.slider (fst (snd r)) = Qt.mkSlider 0 3 0 /\
  map Act.is_render (snd after) = [true] /\
  option_map Arr.shape2 (OverlapViewer.image_item (fst after))
  = Some (3%nat, 2%nat) /\
  fst after <> fst (snd r).
Proof.
  intros st a b r after.
  split; [vm_compute; reflexivity |].
  split; [vm_compute; reflexivity |].
  split; [vm_compute; reflexivity |].
  split; [vm_compute; reflexivity |].
  split; [vm_compute; reflexivity |].
  intros Heq. apply (f_equal OverlapViewer.image_item) in Heq.
  vm_compute in Heq. discriminate Heq.
Qed.

(** ** SliceViewer shows the file under the slider *)

Lemma getitem_nat {A} (l : list A) (p : nat) :
  Py.getitem l (Z.of_nat p) = l !! p.
Proof.
  unfold Py.getitem. destruct (0 <=? Z.of_nat p) eqn:E.
  - rewrite Nat2Z.id. reflexivity.
  - apply Z.leb_gt in E. lia.
Qed.

Lemma slice_update_at tiff (w : SliceViewer.state) (p : nat) fn :
  SliceViewer.filenames w !! p = Some fn ->
  Qt.value (SliceViewer.slider w) = Z.of_nat p ->
  SliceViewer.update_image tiff w =
  (SliceViewer.mkState (Some (read_tiff tiff fn)) (SliceViewer.slider w)
     (SliceViewer.filenames w),
   [Act.SetImage (read_tiff tiff fn)]).
Proof.
  intros Hfn Hv. unfold SliceViewer.update_image.
  assert (Hne : truthy (PyList (SliceViewer.filenames w)) = true).
  { destruct (SliceViewer.filenames w); [discriminate Hfn | reflexivity]. }
  rewrite Hne, Hv, getitem_nat, Hfn. reflexivity.
Qed.

Lemma omap_lookup_total {A B} (f : A -> option B) (l : list A) (i : nat) :
  Forall (fun x => is_Some (f x)) l ->
  omap f l !! i = match l !! i with Some x => f x | None => None end.
Proof.
  intros H. revert i. induction H as [| x l [y Hy] _ IH]; intros i; simpl.
  - rewrite !lookup_nil. reflexivity.
  - rewrite Hy. destruct i as [| i]; simpl; [symmetry; exact Hy | apply IH].
Qed.

Lemma omap_length_total {A B} (f : A -> option B) (l : list A) :
  Forall (fun x => is_Some (f x)) l -> length (omap f l) = length l.
Proof.
  induction 1 as [| x l [y Hy] _ IH]; simpl; [reflexivity |].
  rewrite Hy. simpl. f_equal. exact IH.
Qed.

Lemma wf_column_total {A} (a : Arr.arr2 A) (j : nat) :
  Arr.wf a -> (j < Arr.ncols a)%nat ->
  Forall (fun r : list A => is_Some (r !! j)) (Arr.rows a).
Proof.
  intros [_ Hr] Hj. eapply Forall_impl; [exact Hr |].
  intros r Hlen. apply lookup_lt_is_Some_2. simpl in Hlen. lia.
Qed.

(** The transpose of a well-formed array has the axes swapped. *)
Lemma transpose_spec {A} (a : Arr.arr2 A) :
  Arr.wf a ->
  Arr.shape2 (Arr.transpose a) = (Arr.ncols a, Arr.nrows a) /\
  Arr.wf (Arr.transpose a) /\
  forall i j row x,
    Arr.rows a !! i = Some row -> row !! j = Some x ->
    exists col, Arr.rows (Arr.transpose a) !! j = Some col /\ col !! i = Some x.
Proof.
  intros Hwf. unfold Arr.transpose.
  cbn [Arr.shape2 Arr.nrows Arr.ncols Arr.rows].
  split; [reflexivity |]. split.
  - unfold Arr.wf. cbn [Arr.nrows Arr.ncols Arr.rows]. split.
    + rewrite length_map, length_seq. reflexivity.
    + apply Forall_forall. intros col Hcol.
      apply list_elem_of_In, in_map_iff in Hcol as (j & <- & Hj).
      apply in_seq in Hj.
      rewrite omap_length_total by (apply wf_column_total; [exact Hwf | lia]).
      exact (proj1 Hwf).
  - intros i j row x Hrow Hx.
    assert (Hj : (j < Arr.ncols a)%nat).
    { rewrite <- (Forall_lookup_1 _ _ _ _ (proj2 Hwf) Hrow).
      eapply lookup_lt_Some. exact Hx. }
    exists (omap (fun r : list A => r !! j) (Arr.rows a)). split.
    + rewrite list_lookup_fmap, lookup_seq_lt by exact Hj. reflexivity.
    + rewrite omap_lookup_total by (apply wf_column_total; assumption).
      rewrite Hrow. exact Hx.
Qed.

(** C6: with a non-empty list of N filenames loaded, [update_image] at a
    valid slider position [p] pushes exactly the image decoded from
    [filenames[p]], transposed: what the reader returns with rows and
    columns swapped, sample [(j, i)] of the displayed image being sample
    [(i, j)] of the reader's array.  [load_files] sets the slider range to
    [0, N-1], the position to 0 and renders file 0; and dragging the slider
    to [p] afterwards renders file [p]. *)
Theorem slice_viewer_displays_file
  (tiff : string -> Arr.arr2 Qc) (w : SliceViewer.state)
  (f0 : string) (rest : list string) (p : nat) (fn : string) :
  (f0 :: rest) !! p = Some fn ->
  Arr.wf (tiff fn) ->
  let fnames := f0 :: rest in
  let n := Z.of_nat (length fnames) in
  let at_p := SliceViewer.mkState (SliceViewer.image_item w)
                (Qt.mkSlider 0 (n - 1) (Z.of_nat p)) fnames in
  let loaded := fst (SliceViewer.load_files tiff fnames w) in
  let decoded := tiff fn in
  exists img,
    SliceViewer.update_image tiff at_p =
      (SliceViewer.mkState (Some img) (SliceViewer.slider at_p) fnames,
       [Act.SetImage img]) /\
    img = read_tiff tiff fn /\
    Arr.shape2 img = (Arr.ncols decoded, Arr.nrows decoded) /\
    Arr.wf img /\
    (forall i j row x,
       Arr.rows decoded !! i = Some row -> row !! j = Some x ->
       exists col, Arr.rows img !! j = Some col /\ col !! i = Some x) /\
    loaded = SliceViewer.mkState (Some (read_tiff tiff f0))
               (Qt.mkSlider 0 (n - 1) 0) fnames /\
    fst (SliceViewer.move_slider tiff (Z.of_nat p) loaded) =
      SliceViewer.mkState (Some img) (Qt.mkSlider 0 (n - 1) (Z.of_nat p)) fnames.
Proof.
  intros Hfn Hwf fnames n at_p loaded decoded.
  assert (Hp : (p < length fnames)%nat) by (eapply lookup_lt_Some; exact Hfn).
  assert (Hmax : Z.max 0 (n - 1) = n - 1) by (unfold n; lia).
  exists (read_tiff tiff fn).
  split; [exact (slice_update_at tiff at_p p fn Hfn eq_refl) |].
  split; [reflexivity |].
  destruct (transpose_spec (tiff fn) Hwf) as (Hshape & Hwft & Hcells).
  split; [exact Hshape |]. split; [exact Hwft |]. split; [exact Hcells |].
  assert (Hloaded : loaded = SliceViewer.mkState (Some (read_tiff tiff f0))
                               (Qt.mkSlider 0 (n - 1) 0) fnames).
  { destruct (slice_load_files_fields tiff fnames w) as (Hs & Hf).
    fold loaded n in Hs, Hf. rewrite Hmax in Hs.
    unfold loaded, SliceViewer.load_files in *. rewrite !andthen_fst in *.
    set (w2 := fst (SliceViewer.on_slider tiff _ _)) in *.
    destruct (slice_update_keeps tiff w2) as (K1 & K2).
    rewrite K1 in Hs. rewrite K2 in Hf.
    rewrite (slice_update_at tiff w2 0 f0) by (rewrite ?Hf, ?Hs; reflexivity).
    cbn [fst]. rewrite Hs, Hf. reflexivity. }
  split; [exact Hloaded |].
  rewrite Hloaded. unfold SliceViewer.move_slider, SliceViewer.on_slider.
  cbn [SliceViewer.slider]. unfold Qt.setValue, Qt.bound.
  cbn [Qt.minimum Qt.maximum Qt.value].
  replace (Z.max 0 (Z.min (n - 1) (Z.of_nat p))) with (Z.of_nat p)
    by (unfold n; lia).
  destruct (Z.of_nat p =? 0) eqn:E.
  - apply Z.eqb_eq in E. assert (p = 0%nat) by lia. subst p.
    simpl in Hfn. injection Hfn as <-. reflexivity.
  - unfold Act.emit.
    rewrite (slice_update_at tiff _ p fn) by (try exact Hfn; reflexivity).
    reflexivity.
Qed.

Lemma slice_viewer_displays_file_witness :
  let tiff := fun s : string =>
    Arr.mkArr 1 2 [[Qc_of_Z 7; Qc_of_Z (Z.of_nat (String.length s))]] in
  let w := fst (SliceViewer.init tiff ["a"; "bb"; "ccc"]%string) in
  fst (SliceViewer.move_slider tiff 2 w) =
  SliceViewer.mkState (Some (Arr.mkArr 2 1 [[Qc_of_Z 7]; [Qc_of_Z 3]]))
    (Qt.mkSlider 0 2 2) ["a"; "bb"; "ccc"]%string.
Proof.
  intros tiff w.
  assert (Hwf : Arr.wf (tiff "ccc"%string)).
  { split; [reflexivity | repeat constructor]. }
  destruct (slice_viewer_displays_file tiff
              (SliceViewer.mkState None Qt.new_slider [])
              "a"%string ["bb"; "ccc"]%string 2 "ccc"%string eq_refl Hwf)
    as (img & _ & Himg & _ & _ & _ & _ & H).
  rewrite Himg in H. exact H.
Defined.

(** ** Flat-field correction by a frame of ones *)

Lemma Qcdiv_one (x : Qc) : (x / Qc_of_Z 1)%Qc = x.
Proof.
  replace (Qc_of_Z 1) with 1%Qc by (apply Qc_is_canon; reflexivity).
  unfold Qcdiv. replace (/ 1)%Qc with 1%Qc by (apply Qc_is_canon; reflexivity).
  apply Qcmult_1_r.
Qed.

Lemma fdiv_one (x : Qc) : Arr.fdiv x (Qc_of_Z 1) = Some x.
Proof. unfold Arr.fdiv. simpl. rewrite Qcdiv_one. reflexivity. Qed.

Lemma zip_with_fdiv_ones (r : list Qc) :
  zip_with Arr.fdiv r (replicate (length r) (Qc_of_Z 1)) = map Some r.
Proof.
  induction r as [| x r IH]; simpl; [reflexivity |].
  rewrite IH. f_equal. exact (fdiv_one x).
Qed.

Lemma ones_wf r c : Arr.wf (Arr.ones r c).
Proof.
  unfold Arr.wf, Arr.ones. simpl. split; [apply length_replicate |].
  apply Forall_forall. intros x Hx. apply elem_of_replicate in Hx as [-> _].
  apply length_replicate.
Qed.

(** Dividing a frame by a frame of ones of the same shape changes nothing. *)
Lemma map2_fdiv_ones (proj : Arr.arr2 Qc) :
  Arr.wf proj ->
  Arr.map2 Arr.fdiv proj (Arr.ones (Arr.nrows proj) (Arr.ncols proj))
  = Some (Arr.fmap2 Some proj).
Proof.
  intros Hwf. unfold Arr.map2. cbn [Arr.nrows Arr.ncols Arr.ones].
  rewrite !bdim_same, (expand_wf proj Hwf).
  pose proof (expand_wf _ (ones_wf (Arr.nrows proj) (Arr.ncols proj))) as He.
  cbn [Arr.nrows Arr.ncols Arr.ones Arr.rows] in He. rewrite He.
  unfold Arr.fmap2. f_equal. f_equal.
  destruct proj as [n c rs]. destruct Hwf as [Hl Hr]. simpl in *.
  subst n. clear He. induction Hr as [| r rs' Hlen _ IH]; simpl; [reflexivity |].
  rewrite IH. f_equal. rewrite <- Hlen. apply zip_with_fdiv_ones.
Qed.

(** C7: on a dataset of 10 frames [load_files] with flat-field correction
    sets the slider range to (0, 9); dragging the slider to 5 afterwards,
    when the flat frame is all ones (of the projection's shape), pushes
    projection frame 5 itself, converted to float, to the display. *)
Theorem projection_viewer_flat_ones
  (read : pyfiles -> Z -> Z -> Arr.arr2 Qc * Arr.arr2 Qc) (dims : pyfiles -> Z)
  (w : ProjectionViewer.state) (fname : pyfiles) (proj : Arr.arr2 Qc) :
  truthy fname = true ->
  dims fname = 10 ->
  Arr.wf proj ->
  read fname 5 6 = (proj, Arr.ones (Arr.nrows proj) (Arr.ncols proj)) ->
  let loaded := fst (ProjectionViewer.load_files read dims fname true w) in
  let moved := ProjectionViewer.move_slider read 5 loaded in
  Qt.range (ProjectionViewer.slider loaded) = (0, 9) /\
  Qt.value (ProjectionViewer.slider loaded) = 0 /\
  ProjectionViewer.image_item (fst moved) = Some (Arr.fmap2 Some proj) /\
  snd moved = [Act.SetImage (Arr.fmap2 Some proj)] /\
  Qt.value (ProjectionViewer.slider (fst moved)) = 5.
Proof.
  intros Ht Hd Hwf Hread loaded moved.
  destruct (projection_load_files_fields read dims fname true w)
    as (Hs & Hf & Hc).
  fold loaded in Hs, Hf, Hc. rewrite Hd in Hs.
  change (Z.max 0 (10 - 1)) with 9 in Hs.
  split; [rewrite Hs; reflexivity |]. split; [rewrite Hs; reflexivity |].
  unfold moved, ProjectionViewer.move_slider, ProjectionViewer.on_slider.
  rewrite Hs. cbn [Qt.setValue Qt.bound Qt.minimum Qt.maximum Qt.value].
  unfold Qt.setValue, Qt.bound. simpl. unfold ProjectionViewer.update_image.
  cbn [ProjectionViewer.with_slider ProjectionViewer.filenames
       ProjectionViewer.ffc_correction ProjectionViewer.slider Qt.value].
  rewrite Hf, Hc, Ht. change (Z.max 0 (Z.min 9 5)) with 5.
  change (5 + 1) with 6. rewrite Hread.
  rewrite (map2_fdiv_ones proj Hwf). simpl. repeat split.
Qed.

Lemma projection_viewer_flat_ones_witness :
  let frame := fun pos : Z =>
    Arr.mkArr 1 2 [[Qc_of_Z pos; Qc_of_Z (pos + 1)]] in
  let read := fun (_ : pyfiles) (lo _ : Z) => (frame lo, Arr.ones 1 2) in
  let dims := fun _ : pyfiles => 10 in
  let loaded := fst (ProjectionViewer.load_files read dims (PyList ["a"%string])
                       true ProjectionViewer.init) in
  Qt.range (ProjectionViewer.slider loaded) = (0, 9) /\
  ProjectionViewer.image_item (fst (ProjectionViewer.move_slider read 5 loaded))
  = Some (Arr.fmap2 Some (frame 5)).
Proof.
  intros frame read dims loaded.
  assert (Hwf : Arr.wf (frame 5)).
  { split; [reflexivity |]. repeat constructor. }
  pose proof (projection_viewer_flat_ones read dims ProjectionViewer.init
                (PyList ["a"%string]) (frame 5) eq_refl eq_refl Hwf eq_refl)
    as (H1 & _ & H2 & _).
  split; [exact H1 | exact H2].
Defined.
(** ** create_volume, channel by channel *)

Lemma set_last_lookup {A} (k c : nat) (vals vol : list A) (idx : nat) :
  Arr.set_last k c vals vol !! idx =
  (fun old => if (idx mod k =? c)%nat then default old (vals !! (idx / k)%nat)
              else old) <$> vol !! idx.
Proof. unfold Arr.set_last. apply list_lookup_imap. Qed.

Lemma set_last_length {A} (k c : nat) (vals vol : list A) :
  length (Arr.set_last k c vals vol) = length vol.
Proof. unfold Arr.set_last. apply length_imap. Qed.

Lemma size_of_app sh k : Arr.size_of (sh ++ [k]) = (Arr.size_of sh * k)%nat.
Proof.
  unfold Arr.size_of. induction sh as [| n sh IH]; simpl; [lia |].
  rewrite IH. lia.
Qed.

Lemma to_ubyte_range x : 0 <= Arr.to_ubyte x <= 255.
Proof.
  unfold Arr.to_ubyte. destruct x as [q |]; [| lia].
  destruct (_ && _); [| lia].
  pose proof (Z.mod_pos_bound (Qctrunc q) 256 ltac:(lia)). lia.
Qed.

Lemma squared_gradient_length d : length (squared_gradient d) = length d.
Proof.
  unfold squared_gradient. rewrite length_zip_with, rotate_length. lia.
Qed.

Lemma amin_some l : l <> [] -> exists m, Arr.amin l = Some m.
Proof. destruct l; [congruence | intros _; eexists; reflexivity]. Qed.

Lemma amax_some l : l <> [] -> exists m, Arr.amax l = Some m.
Proof. destruct l; [congruence | intros _; eexists; reflexivity]. Qed.

Lemma nonempty_length {A} (l : list A) : l <> [] <-> (0 < length l)%nat.
Proof. destruct l; simpl; split; intros; try congruence; lia. Qed.

(** The channels of the volume built from a non-empty array. *)
Lemma create_volume_channels (data : Arr.ndarray Qc) :
  Arr.wf_nd data -> Arr.flat data <> [] ->
  exists cmin cmax vol,
    Arr.amin (squared_gradient (Arr.flat data)) = Some cmin /\
    Arr.amax (squared_gradient (Arr.flat data)) = Some cmax /\
    create_volume data = Some vol /\
    Arr.shape vol = Arr.shape data ++ [4%nat] /\
    Arr.wf_nd vol /\
    forall i x g,
      Arr.flat data !! i = Some x ->
      squared_gradient (Arr.flat data) !! i = Some g ->
      Arr.flat vol !! (4 * i)%nat = Some (Arr.to_ubyte (Some x)) /\
      Arr.flat vol !! (4 * i + 1)%nat = Some (Arr.to_ubyte (Some x)) /\
      Arr.flat vol !! (4 * i + 2)%nat = Some (Arr.to_ubyte (Some x)) /\
      Arr.flat vol !! (4 * i + 3)%nat =
        Some (Arr.to_ubyte
                (option_map (fun q => (q * Qc_of_Z 255)%Qc)
                   (Arr.fdiv (g - cmin)%Qc (cmax - cmin)%Qc))).
Proof.
  intros Hwf Hne.
  assert (Hg : squared_gradient (Arr.flat data) <> []).
  { apply nonempty_length. rewrite squared_gradient_length.
    apply nonempty_length, Hne. }
  destruct (amin_some _ Hg) as [cmin Hmin], (amax_some _ Hg) as [cmax Hmax].
  unfold create_volume. rewrite Hmin, Hmax.
  eexists cmin, cmax, _. do 3 (split; [reflexivity |]).
  cbn [Arr.shape Arr.flat Arr.empty].
  split; [reflexivity |]. split.
  { unfold Arr.wf_nd. cbn [Arr.shape Arr.flat].
    rewrite !set_last_length, length_replicate. reflexivity. }
  intros i x g Hx Hgi.
  assert (Hi : (i < Arr.size_of (Arr.shape data))%nat).
  { rewrite <- Hwf. eapply lookup_lt_Some; exact Hx. }
  assert (Hinit : forall c, (c < 4)%nat ->
            replicate (Arr.size_of (Arr.shape data ++ [4%nat])) 0 !! (4 * i + c)%nat
            = Some 0).
  { intros c Hc. apply lookup_replicate_2. rewrite size_of_app. lia. }
  assert (Hdiv : forall c, (c < 4)%nat -> ((4 * i + c) / 4 = i)%nat).
  { intros c Hc. rewrite Nat.mul_comm, Nat.div_add_l by lia.
    rewrite Nat.div_small by lia. lia. }
  assert (Hmod : forall c, (c < 4)%nat -> ((4 * i + c) mod 4 = c)%nat).
  { intros c Hc. rewrite Nat.add_comm, Nat.mul_comm, Nat.Div0.mod_add.
    apply Nat.mod_small. exact Hc. }
  replace (4 * i)%nat with (4 * i + 0)%nat at 1 by lia.
  repeat split; rewrite !set_last_lookup, Hinit, Hmod, Hdiv by lia; simpl;
    rewrite ?list_lookup_fmap, ?Hx; try reflexivity.
  unfold normalize. rewrite list_lookup_fmap, Hgi. reflexivity.
Qed.
(** C2 (as amended): for every non-empty input array [create_volume]
    returns an array whose shape is the input's shape followed by one
    dimension of size 4, and every value of its alpha channel (index 3 of
    that dimension) lies in [0, 255]. *)
Theorem create_volume_shape_alpha (data : Arr.ndarray Qc) :
  Arr.wf_nd data -> Arr.flat data <> [] ->
  exists vol,
    create_volume data = Some vol /\
    Arr.shape vol = Arr.shape data ++ [4%nat] /\
    Arr.wf_nd vol /\
    forall i, (i < length (Arr.flat data))%nat ->
      exists alpha, Arr.flat vol !! (4 * i + 3)%nat = Some alpha /\
                    0 <= alpha <= 255.
Proof.
  intros Hwf Hne.
  destruct (create_volume_channels data Hwf Hne)
    as (cmin & cmax & vol & _ & _ & Hvol & Hshape & Hwfv & Hch).
  exists vol. do 3 (split; [assumption |]).
  intros i Hi.
  destruct (lookup_lt_is_Some_2 (Arr.flat data) i Hi) as [x Hx].
  destruct (lookup_lt_is_Some_2 (squared_gradient (Arr.flat data)) i) as [g Hg].
  { rewrite squared_gradient_length. exact Hi. }
  destruct (Hch i x g Hx Hg) as (_ & _ & _ & Ha).
  eexists. split; [exact Ha | apply to_ubyte_range].
Qed.

Lemma create_volume_shape_alpha_witness :
  exists vol,
    create_volume (Arr.mkNd [2; 2]%nat (map Qc_of_Z [1; 3; 6; 10])) = Some vol /\
    Arr.shape vol = [2; 2; 4]%nat /\
    exists alpha, Arr.flat vol !! 15%nat = Some alpha /\ 0 <= alpha <= 255.
Proof.
  destruct (create_volume_shape_alpha
              (Arr.mkNd [2; 2]%nat (map Qc_of_Z [1; 3; 6; 10]))
              eq_refl ltac:(discriminate))
    as (vol & Hvol & Hshape & _ & Ha).
  exists vol. split; [exact Hvol |]. split; [exact Hshape |].
  exact (Ha 3%nat ltac:(cbn; lia)).
Defined.

(** C2 (as stated) fails on an empty array: [gradient.min()] raises
    ValueError, so no array is returned. *)
Lemma create_volume_empty_counterexample :
  create_volume (Arr.mkNd [0%nat] []) = None /\
  Arr.wf_nd (Arr.mkNd [0%nat] ([] : list Qc)).
Proof. split; reflexivity. Qed.
(** ** Where a circular shift finds its elements *)

Lemma rotate_lookup {A} (shift : Z) (l : list A) (i : nat) :
  (i < length l)%nat ->
  Arr.rotate shift l !! i
  = l !! Z.to_nat ((Z.of_nat i - shift) mod Z.of_nat (length l)).
Proof.
  intros Hi. unfold Arr.rotate.
  destruct (length l =? 0)%nat eqn:E; [apply Nat.eqb_eq in E; lia |].
  set (n := Z.of_nat (length l)).
  assert (Hn : 0 < n) by (unfold n; lia).
  pose proof (Z.mod_pos_bound shift n Hn) as Hk.
  rewrite <- (Zminus_mod_idemp_r (Z.of_nat i) shift n).
  set (k := shift mod n) in *.
  destruct (decide (Z.of_nat i < k)) as [Hlt | Hge].
  - rewrite lookup_app_l by (rewrite length_drop; unfold n in *; lia).
    rewrite lookup_drop. f_equal.
    replace (Z.of_nat i - k) with (Z.of_nat i - k + n + (-1) * n) by lia.
    rewrite Z_mod_plus_full, Z.mod_small by lia. unfold n in *. lia.
  - rewrite lookup_app_r by (rewrite length_drop; unfold n in *; lia).
    rewrite length_drop, lookup_take_lt by (unfold n in *; lia).
    f_equal. rewrite Z.mod_small by lia. unfold n in *. lia.
Qed.

(** ** Strided slices *)

Lemma stride_from_lookup {A} (k : nat) (l : list A) :
  (0 < k)%nat ->
  forall skip i, Py.stride_from k skip l !! i = l !! (skip + i * k)%nat.
Proof.
  intros Hk. induction l as [| x t IH]; intros skip i; simpl.
  - rewrite !lookup_nil. reflexivity.
  - destruct skip as [| s].
    + destruct i as [| i]; [reflexivity |].
      replace (0 + S i * k)%nat with (S (Nat.pred k + i * k)) by lia.
      simpl. apply IH.
    + rewrite IH. reflexivity.
Qed.

(** ** VolumeViewer.load_data: the colour channels *)

(** C8: the colour channels do not hold the intensity.  [create_volume]
    scales the gradient to the byte range of the [np.ubyte] volume but
    assigns the intensity as it is, so the cast keeps its low byte only:
    with three one-pixel files of intensity 1/2, 300 and 2, stacked by
    [load_data] into the samples [1/2, 300, 2], the voxels get
    R = G = B = 0, 44 and 2. *)
Lemma load_data_intensity_wraps :
  let tiff := fun s : string =>
    match String.length s with
    | 1%nat => Arr.mkArr 1 1 [[Q2Qc (1 # 2)]]
    | 2%nat => Arr.mkArr 1 1 [[Qc_of_Z 300]]
    | _ => Arr.mkArr 1 1 [[Qc_of_Z 2]]
    end in
  let fnames := ["a"; "bb"; "ccc"]%string in
  exists data vol,
    VolumeViewer.assemble tiff 1 fnames = Some data /\
    (forall version,
       option_map (fun w => map VolumeViewer.volume (VolumeViewer.items w))
         (VolumeViewer.load_data version tiff fnames (VolumeViewer.init 1 1))
       = Some [vol]) /\
    Arr.shape data = [1; 1; 3]%nat /\
    map this (Arr.flat data) = [(1 # 2)%Q; (300 # 1)%Q; (2 # 1)%Q] /\
    Arr.shape vol = [1; 1; 3; 4]%nat /\
    map (fun c => Arr.flat vol !! c) [0; 1; 2]%nat = [Some 0; Some 0; Some 0] /\
    map (fun c => Arr.flat vol !! c) [4; 5; 6]%nat = [Some 44; Some 44; Some 44] /\
    map (fun c => Arr.flat vol !! c) [8; 9; 10]%nat = [Some 2; Some 2; Some 2] /\
    Qc_of_Z 0 <> Q2Qc (1 # 2) /\ Qc_of_Z 44 <> Qc_of_Z 300.
Proof.
  intros tiff fnames. eexists. eexists.
  split; [vm_compute; reflexivity |].
  split; [intros []; vm_compute; reflexivity |].
  split; [vm_compute; reflexivity |].
  split; [vm_compute; reflexivity |].
  split; [vm_compute; reflexivity |].
  split; [vm_compute; reflexivity |].
  split; [vm_compute; reflexivity |].
  split; [vm_compute; reflexivity |].
  split; intros H; apply (f_equal this) in H; vm_compute in H; discriminate H.
Qed.

(** * Further properties of the module *)

(** ** remove_extrema: what it leaves alone *)

(** X1: [remove_extrema] writes only through the view it is given: the
    store keeps its buffers and their sizes, every other buffer is
    untouched, and so is every cell of the view's own buffer that the view
    does not address. *)
Theorem remove_extrema_leaves_rest
  (percentile : list Qc -> Z -> option Qc) (st : Np.store) (v : Np.view) :
  Np.in_bounds st v ->
  let st' := fst (remove_extrema percentile st v) in
  length st' = length st /\
  (forall k, Np.buf_size (Np.get_buf st' k) = Np.buf_size (Np.get_buf st k)) /\
  (forall k, k <> Np.base v -> Np.get_buf st' k = Np.get_buf st k) /\
  (forall a, a ∉ Np.addrs v ->
     Np.buf_load (Np.get_buf st' (Np.base v)) a =
     Np.buf_load (Np.get_buf st (Np.base v)) a).
Proof.
  intros Hb st'. split; [apply remove_extrema_length |].
  split; [intros k; apply remove_extrema_sizes; exact Hb |].
  split; [intros k Hk; apply remove_extrema_frame; exact Hk |].
  intros a Ha. apply remove_extrema_outside; assumption.
Qed.

Lemma remove_extrema_leaves_rest_witness :
  let st := [Np.IntBuf [9; 1; 2; 3; 9]; Np.IntBuf [7; 8]] in
  let v := Np.mkView 0 1 1 3 3 1 in
  fst (remove_extrema Np.percentile st v)
  = [Np.IntBuf [9; 1; 2; 2; 9]; Np.IntBuf [7; 8]] /\
  Np.get_buf (fst (remove_extrema Np.percentile st v)) 1 = Np.get_buf st 1.
Proof.
  intros st v. split; [vm_compute; reflexivity |].
  assert (Hb : Np.in_bounds st v).
  { intros i j Hi Hj. unfold Np.addr. cbn in Hi, Hj. cbn. lia. }
  destruct (remove_extrema_leaves_rest Np.percentile st v Hb) as (_ & _ & H & _).
  apply H. cbn. lia.
Defined.

(** ** remove_extrema keeps the order of the samples *)




(** ** create_volume: grey voxels and byte intensities *)

Lemma create_volume_some_nonempty data vol :
  create_volume data = Some vol -> Arr.flat data <> [].
Proof.
  unfold create_volume, squared_gradient. intros H Hnil. rewrite Hnil in H.
  discriminate H.
Qed.

(** X3: the volume holds four bytes per voxel and every voxel is grey:
    its R, G and B channels carry the same byte. *)
Theorem create_volume_grey (data : Arr.ndarray Qc) (vol : Arr.ndarray Z) :
  Arr.wf_nd data -> create_volume data = Some vol ->
  length (Arr.flat vol) = (4 * length (Arr.flat data))%nat /\
  forall i, (i < length (Arr.flat data))%nat ->
    exists c, 0 <= c <= 255 /\
      Arr.flat vol !! (4 * i)%nat = Some c /\
      Arr.flat vol !! (4 * i + 1)%nat = Some c /\
      Arr.flat vol !! (4 * i + 2)%nat = Some c.
Proof.
  intros Hwf Hvol.
  destruct (create_volume_channels data Hwf (create_volume_some_nonempty _ _ Hvol))
    as (cmin & cmax & vol' & _ & _ & Hvol' & Hshape & Hwfv & Hch).
  rewrite Hvol in Hvol'. injection Hvol' as <-. split.
  - rewrite Hwfv, Hshape, size_of_app, <- Hwf. lia.
  - intros i Hi.
    destruct (lookup_lt_is_Some_2 (Arr.flat data) i Hi) as [x Hx].
    destruct (lookup_lt_is_Some_2 (squared_gradient (Arr.flat data)) i) as [g Hg].
    { rewrite squared_gradient_length. exact Hi. }
    destruct (Hch i x g Hx Hg) as (H0 & H1 & H2 & _).
    exists (Arr.to_ubyte (Some x)). split; [apply to_ubyte_range | auto].
Qed.

Lemma create_volume_grey_witness :
  exists vol,
    create_volume (Arr.mkNd [3%nat] [Q2Qc (1 # 2); Qc_of_Z 300; Qc_of_Z 2])
      = Some vol /\
    length (Arr.flat vol) = 12%nat.
Proof.
  eexists. split; [reflexivity |].
  refine (proj1 (create_volume_grey
                   (Arr.mkNd [3%nat] [Q2Qc (1 # 2); Qc_of_Z 300; Qc_of_Z 2])
                   _ eq_refl eq_refl)).
Defined.

Lemma to_ubyte_byte z : 0 <= z <= 255 -> Arr.to_ubyte (Some (Qc_of_Z z)) = z.
Proof.
  intros Hz. unfold Arr.to_ubyte. rewrite Qctrunc_of_Z. cbv zeta.
  replace ((- 2 ^ 31 <=? z) && (z <? 2 ^ 31)) with true
    by (symmetry; apply andb_true_intro; split;
        [apply Z.leb_le | apply Z.ltb_lt]; lia).
  apply Z.mod_small. lia.
Qed.

(** X4: a voxel whose intensity is an integer between 0 and 255 keeps it
    exactly in its three colour channels. *)
Theorem create_volume_byte_intensity
  (data : Arr.ndarray Qc) (vol : Arr.ndarray Z) (i : nat) (z : Z) :
  Arr.wf_nd data -> create_volume data = Some vol ->
  Arr.flat data !! i = Some (Qc_of_Z z) -> 0 <= z <= 255 ->
  Arr.flat vol !! (4 * i)%nat = Some z /\
  Arr.flat vol !! (4 * i + 1)%nat = Some z /\
  Arr.flat vol !! (4 * i + 2)%nat = Some z.
Proof.
  intros Hwf Hvol Hx Hz.
  destruct (create_volume_channels data Hwf (create_volume_some_nonempty _ _ Hvol))
    as (cmin & cmax & vol' & _ & _ & Hvol' & _ & _ & Hch).
  rewrite Hvol in Hvol'. injection Hvol' as <-.
  destruct (lookup_lt_is_Some_2 (squared_gradient (Arr.flat data)) i) as [g Hg].
  { rewrite squared_gradient_length. eapply lookup_lt_Some; exact Hx. }
  destruct (Hch i _ g Hx Hg) as (H0 & H1 & H2 & _).
  rewrite (to_ubyte_byte z Hz) in H0, H1, H2. auto.
Qed.

Lemma create_volume_byte_intensity_witness :
  exists vol,
    create_volume (Arr.mkNd [2; 2]%nat (map Qc_of_Z [1; 3; 6; 10])) = Some vol /\
    Arr.flat vol !! 8%nat = Some 6.
Proof.
  eexists. split; [reflexivity |].
  refine (proj1 (create_volume_byte_intensity
                   (Arr.mkNd [2; 2]%nat (map Qc_of_Z [1; 3; 6; 10]))
                   _ 2%nat 6 eq_refl eq_refl eq_refl _)).
  lia.
Defined.
(** ** read_tiff: the transposed image *)

(** X6: [read_tiff] returns the decoded image with its axes swapped: the
    shape is reversed, the result is a well-formed array, and its sample
    [(j, i)] is sample [(i, j)] of the decoded image. *)
Theorem read_tiff_transposes
  (tiff : string -> Arr.arr2 Qc) (filename : string) :
  Arr.wf (tiff filename) ->
  let a := tiff filename in
  let t := read_tiff tiff filename in
  Arr.shape2 t = (Arr.ncols a, Arr.nrows a) /\
  Arr.wf t /\
  forall i j, (i < Arr.nrows a)%nat -> (j < Arr.ncols a)%nat ->
    exists row col x,
      Arr.rows a !! i = Some row /\ row !! j = Some x /\
      Arr.rows t !! j = Some col /\ col !! i = Some x.
Proof.
  intros Hwf a t. subst a t. unfold read_tiff, Arr.transpose.
  cbn [Arr.shape2 Arr.nrows Arr.ncols Arr.rows].
  split; [reflexivity |]. split.
  - unfold Arr.wf. cbn [Arr.nrows Arr.ncols Arr.rows]. split.
    + rewrite length_map, length_seq. reflexivity.
    + apply Forall_forall. intros col Hcol.
      apply list_elem_of_In, in_map_iff in Hcol as (j & <- & Hj).
      apply in_seq in Hj.
      rewrite omap_length_total by (apply wf_column_total; [exact Hwf | lia]).
      exact (proj1 Hwf).
  - intros i j Hi Hj.
    destruct (lookup_lt_is_Some_2 (Arr.rows (tiff filename)) i) as [row Hrow].
    { rewrite (proj1 Hwf). exact Hi. }
    destruct (lookup_lt_is_Some_2 row j) as [x Hx].
    { rewrite (Forall_lookup_1 _ _ _ _ (proj2 Hwf) Hrow). exact Hj. }
    exists row, (omap (fun r : list Qc => r !! j) (Arr.rows (tiff filename))), x.
    split; [exact Hrow |]. split; [exact Hx |]. split.
    + rewrite list_lookup_fmap, lookup_seq_lt by exact Hj. reflexivity.
    + rewrite omap_lookup_total by (apply wf_column_total; assumption).
      rewrite Hrow. exact Hx.
Qed.

Lemma read_tiff_transposes_witness :
  let tiff := fun _ : string =>
    Arr.mkArr 2 3 [map Qc_of_Z [1; 2; 3]; map Qc_of_Z [4; 5; 6]] in
  read_tiff tiff "a" =
    Arr.mkArr 3 2 [map Qc_of_Z [1; 4]; map Qc_of_Z [2; 5]; map Qc_of_Z [3; 6]] /\
  Arr.wf (read_tiff tiff "a").
Proof.
  intros tiff. split; [reflexivity |].
  assert (Hwf : Arr.wf (tiff "a"%string)).
  { split; [reflexivity | repeat constructor]. }
  exact (proj1 (proj2 (read_tiff_transposes tiff "a" Hwf))).
Defined.
(** ** OverlapViewer: the displayed difference, cell by cell *)

Lemma rotate_Forall {A} (P : A -> Prop) shift (l : list A) :
  Forall P l -> Forall P (Arr.rotate shift l).
Proof.
  intros H. unfold Arr.rotate. destruct (length l =? 0)%nat; [exact H |].
  apply Forall_app. split; [apply Forall_drop | apply Forall_take]; exact H.
Qed.

Lemma roll0_wf {A} shift (a : Arr.arr2 A) : Arr.wf a -> Arr.wf (Arr.roll0 shift a).
Proof.
  intros [Hl Hr]. unfold Arr.wf, Arr.roll0. simpl. split.
  - rewrite rotate_length. exact Hl.
  - apply rotate_Forall. exact Hr.
Qed.

Lemma view_read_row st v i :
  (i < Np.vrows v)%nat ->
  Arr.rows (Arr.view_read st v) !! i
  = Some (map (fun j => Np.vget st v i j) (seq 0 (Np.vcols v))).
Proof.
  intros Hi. unfold Arr.view_read. simpl.
  rewrite list_lookup_fmap, lookup_seq_lt by exact Hi. reflexivity.
Qed.

Lemma view_read_cell st v i j :
  (j < Np.vcols v)%nat ->
  map (fun j => Np.vget st v i j) (seq 0 (Np.vcols v)) !! j
  = Some (Np.vget st v i j).
Proof.
  intros Hj. rewrite list_lookup_fmap, lookup_seq_lt by exact Hj. reflexivity.
Qed.

(** X7: with two images of one shape loaded and a slider position at
    which [np.roll] takes the shift [k], [update_image] displays an image
    of that shape whose sample [(i, j)] is the difference, as NumPy
    computes it for the two arrays, of the second image's sample in row
    [(i - k) mod height] and the first image's sample [(i, j)]: the second
    image is moved down by [k] rows, wrapping around, before the
    subtraction. *)
Theorem overlap_display_cell
  (H : Host.t) (st : Np.store) (w : OverlapViewer.state) (f s : Np.view)
  (k : Z) :
  OverlapViewer.first w = Some f -> OverlapViewer.second w = Some s ->
  Np.vshape f = Np.vshape s ->
  OverlapViewer.shift H s (Qt.value (OverlapViewer.slider w)) = Some k ->
  let h := Z.of_nat (Np.vrows s) in
  exists img,
    OverlapViewer.update_image H st w =
      (OverlapViewer.mkState (Some img) (OverlapViewer.slider w) (Some f) (Some s),
       [Act.SetImage img]) /\
    Arr.shape2 img = Np.vshape f /\
    forall i j, (i < Np.vrows f)%nat -> (j < Np.vcols f)%nat ->
      exists row,
        Arr.rows img !! i = Some row /\
        row !! j =
          Some (Host.subtract H
                  (Np.vget st s (Z.to_nat ((Z.of_nat i - k) mod h)) j)
                  (Np.vget st f i j)).
Proof.
  intros Hf Hs Hshape Hk h.
  injection Hshape as Hr Hc.
  rewrite (overlap_update_loaded H st w f s k Hf Hs Hk).
  unfold Arr.map2. cbn [Arr.roll0 Arr.nrows Arr.ncols Arr.view_read].
  rewrite Hr, Hc, !bdim_same.
  pose proof (expand_wf _ (roll0_wf k _ (view_read_wf st s))) as E1.
  pose proof (expand_wf _ (view_read_wf st f)) as E2.
  cbn [Arr.roll0 Arr.nrows Arr.ncols Arr.view_read Arr.rows] in E1, E2.
  rewrite Hr, Hc in E2. rewrite E1, E2.
  eexists. split; [rewrite Hf, Hs; reflexivity |].
  cbn [Arr.shape2 Arr.nrows Arr.ncols Arr.rows]. unfold Np.vshape.
  split; [rewrite Hr, Hc; reflexivity |].
  intros i j Hi Hj.
  assert (Hn : 0 < h) by (unfold h; lia).
  pose proof (Z.mod_pos_bound (Z.of_nat i - k) h Hn) as Hm.
  set (r := Z.to_nat ((Z.of_nat i - k) mod h)).
  assert (Hrr : (r < Np.vrows s)%nat) by (unfold r, h in *; lia).
  eexists. split.
  - rewrite lookup_zip_with.
    rewrite rotate_lookup by (rewrite length_map, length_seq; lia).
    rewrite length_map, length_seq. fold h r.
    pose proof (view_read_row st s r Hrr) as Hks.
    pose proof (view_read_row st f i ltac:(rewrite Hr; exact Hi)) as Hif.
    unfold Arr.view_read in Hks, Hif. simpl in Hks, Hif.
    rewrite Hr, Hc in Hif. rewrite Hks. simpl. rewrite Hif. simpl. reflexivity.
  - rewrite lookup_zip_with.
    rewrite view_read_cell by lia. simpl.
    pose proof (view_read_cell st f i j ltac:(rewrite Hc; exact Hj)) as Hcell.
    rewrite Hc in Hcell. rewrite Hcell. reflexivity.
Qed.

Lemma overlap_display_cell_witness :
  let st := [Np.FloatBuf (map Qc_of_Z [1; 2; 3; 4; 5; 6])] in
  let v := Np.mkView 0 0 3 2 2 1 in
  let w := OverlapViewer.mkState None (Qt.mkSlider 0 3 0) (Some v) (Some v) in
  exists img,
    OverlapViewer.image_item (fst (OverlapViewer.update_image Host.python3 st w))
    = Some img /\
    Arr.shape2 img = (3%nat, 2%nat).
Proof.
  intros st v w.
  destruct (overlap_display_cell Host.python3 st w v v 1
              eq_refl eq_refl eq_refl eq_refl)
    as (img & Hupd & Hshape & _).
  exists img. split; [rewrite Hupd; reflexivity | exact Hshape].
Defined.

(** ** OverlapViewer.set_images: the shape warning *)

(** X8: when [set_images] is past both [remove_extrema] calls it logs the
    shape warning exactly when the two images differ in shape, and in
    either case goes on: its last event is the image pushed to the
    display, the ValueError of a subtraction that cannot be broadcast, or
    the TypeError of a float the slider or [np.roll] does not take.  When
    one of the calls raises IndexError, that is all [set_images] does. *)
Theorem set_images_warns_on_mismatch
  (H : Host.t) (st : Np.store) (a b : Np.view) (w : OverlapViewer.state) :
  let events := snd (snd (OverlapViewer.set_images H st a b w)) in
  let shape_msg := "Shape {} of {} is different to {} of {}"%string in
  (Act.Raise "IndexError" ∉ events ->
   (Act.Warn shape_msg ∈ events <-> Np.vshape a <> Np.vshape b) /\
   exists e, last events = Some e /\
             (Act.is_render e = true \/ e = Act.Raise "ValueError" \/
              e = Act.Raise "TypeError")) /\
  (Act.Raise "IndexError" ∈ events -> events = [Act.Raise "IndexError"]).
Proof.
  intros events shape_msg. split.
  - intros Hno. destruct (set_images_shown H st a b w Hno) as (_ & _ & E).
    unfold events. rewrite E. cbn [snd].
    set (st2 := fst (remove_extrema _ _ (Np.flipud (Np.T b)))).
    set (w0 := OverlapViewer.mkState _ _ _ _).
    destruct (show_events H st2 (Np.T a) (Np.flipud (Np.T b)) w0 _ _
                eq_refl eq_refl) as (rest & e & Hev & Hd & Hlast).
    rewrite Hev.
    assert (Hquiet : Act.Warn shape_msg ∉ rest).
    { intros Hin. rewrite Forall_forall in Hd.
      destruct (Hd _ Hin) as [Hc | [Hc | Hc]]; discriminate Hc. }
    split.
    + unfold OverlapViewer.warn_shapes.
      destruct (decide (Np.vshape (Np.T a) = Np.vshape (Np.flipud (Np.T b))))
        as [Heq | Hneq]; cbn [snd app].
      * split.
        -- intros Hin. exfalso. exact (Hquiet Hin).
        -- intros Hne. exfalso. apply Hne. unfold Np.vshape in *. simpl in Heq.
           injection Heq as H1 H2. congruence.
      * split.
        -- intros _ Heq. apply Hneq. unfold Np.vshape in *. simpl.
           injection Heq as H1 H2. congruence.
        -- intros _. left.
    + exists e. split.
      * rewrite last_app, Hlast. reflexivity.
      * apply last_Some_elem_of in Hlast. rewrite Forall_forall in Hd.
        exact (Hd _ Hlast).
  - intros Hin. exact (proj1 (set_images_raised H st a b w Hin)).
Qed.

Lemma set_images_warns_on_mismatch_witness :
  let st := [Np.FloatBuf (map Qc_of_Z [1; 2; 3; 4; 5; 6])] in
  let a := Np.mkView 0 0 2 3 3 1 in
  let b := Np.mkView 0 0 3 2 2 1 in
  @Act.Warn OverlapViewer.image "Shape {} of {} is different to {} of {}"
  ∈ snd (snd (OverlapViewer.set_images Host.python2 st a b OverlapViewer.init)).
Proof.
  intros st a b.
  destruct (set_images_warns_on_mismatch Host.python2 st a b OverlapViewer.init)
    as (Hw & _).
  destruct Hw as (Hiff & _).
  - intros Hin. apply (set_images_raised Host.python2) in Hin as (Hone & _).
    vm_compute in Hone. discriminate Hone.
  - apply Hiff. vm_compute. intros Heq. discriminate Heq.
Defined.

(** ** Rendering depends on the data and the position only *)

(** X9: [update_image] is idempotent in all three viewers: calling it again
    without moving the slider leaves the same widget and the same events,
    whatever image was displayed before. *)
Theorem update_image_idempotent
  (read : pyfiles -> Z -> Z -> Arr.arr2 Qc * Arr.arr2 Qc)
  (tiff : string -> Arr.arr2 Qc) (H : Host.t) (st : Np.store)
  (pw : ProjectionViewer.state) (sw : SliceViewer.state) (ow : OverlapViewer.state) :
  ProjectionViewer.update_image read (fst (ProjectionViewer.update_image read pw))
    = ProjectionViewer.update_image read pw /\
  SliceViewer.update_image tiff (fst (SliceViewer.update_image tiff sw))
    = SliceViewer.update_image tiff sw /\
  OverlapViewer.update_image H st (fst (OverlapViewer.update_image H st ow))
    = OverlapViewer.update_image H st ow.
Proof.
  split; [| split].
  - unfold ProjectionViewer.update_image at 2 3.
    destruct (truthy (ProjectionViewer.filenames pw)) eqn:Ht.
    + destruct (read _ _ _) as [proj flat] eqn:Er.
      destruct (if ProjectionViewer.ffc_correction pw then _ else _) as [img |] eqn:Ei;
        cbn [fst]; unfold ProjectionViewer.update_image;
        cbn [ProjectionViewer.filenames ProjectionViewer.slider
             ProjectionViewer.ffc_correction];
        rewrite Ht, Er, Ei; reflexivity.
    + cbn [fst]. unfold ProjectionViewer.update_image. rewrite Ht. reflexivity.
  - unfold SliceViewer.update_image at 2 3.
    destruct (truthy (PyList (SliceViewer.filenames sw))) eqn:Ht.
    + destruct (Py.getitem _ _) as [fn |] eqn:Eg; cbn [fst];
        unfold SliceViewer.update_image;
        cbn [SliceViewer.filenames SliceViewer.slider]; rewrite Ht, Eg; reflexivity.
    + cbn [fst]. unfold SliceViewer.update_image. rewrite Ht. reflexivity.
  - unfold OverlapViewer.update_image at 2 3.
    destruct (OverlapViewer.first ow) as [f |] eqn:Ef;
      [destruct (OverlapViewer.second ow) as [s |] eqn:Es |].
    + destruct (OverlapViewer.shift H s _) as [k |] eqn:Ek.
      * destruct (Arr.map2 _ _ _) as [img |] eqn:Em; cbn [fst];
          unfold OverlapViewer.update_image;
          cbn [OverlapViewer.first OverlapViewer.second OverlapViewer.slider];
          rewrite ?Ef, ?Es, Ek, Em; reflexivity.
      * cbn [fst]. unfold OverlapViewer.update_image.
        rewrite Ef, Es, Ek. reflexivity.
    + cbn [fst]. unfold OverlapViewer.update_image. rewrite Ef, Es. reflexivity.
    + cbn [fst]. unfold OverlapViewer.update_image. rewrite Ef. reflexivity.
Qed.
(** ** SliceViewer: the slider never leaves the file list *)

Section SliceSafety.
Import SliceViewer.

Variable tiff : string -> Arr.arr2 Qc.
Variable fnames : list string.
Hypothesis Hne : fnames <> [].

Let n : Z := Z.of_nat (length fnames).

(** The only event a loaded viewer emits: one of its files on display. *)
Let shows (e : Act.event image) : Prop :=
  exists fn, fn ∈ fnames /\ e = Act.SetImage (read_tiff tiff fn).

Lemma slice_update_in_range w :
  filenames w = fnames -> 0 <= Qt.value (slider w) < n ->
  Forall shows (snd (update_image tiff w)) /\
  filenames (fst (update_image tiff w)) = fnames /\
  slider (fst (update_image tiff w)) = slider w.
Proof.
  intros Hf Hv.
  destruct (lookup_lt_is_Some_2 fnames (Z.to_nat (Qt.value (slider w))))
    as [fn Hfn]; [unfold n in Hv; lia |].
  rewrite (slice_update_at tiff w (Z.to_nat (Qt.value (slider w))) fn)
    by (rewrite ?Hf, ?Z2Nat.id by lia; auto).
  cbn [fst snd filenames slider]. split; [| auto].
  constructor; [| constructor]. exists fn. split; [| reflexivity].
  eapply list_elem_of_lookup_2; exact Hfn.
Qed.

Lemma slice_on_slider_safe g w :
  filenames w = fnames ->
  (snd (g (slider w)) = true -> 0 <= Qt.value (fst (g (slider w))) < n) ->
  Forall shows (snd (on_slider tiff g w)) /\
  filenames (fst (on_slider tiff g w)) = fnames /\
  slider (fst (on_slider tiff g w)) = fst (g (slider w)).
Proof.
  intros Hf Hg. unfold on_slider.
  destruct (g (slider w)) as [s emitted]. simpl in Hg.
  destruct emitted; simpl.
  - apply (slice_update_in_range (with_slider w s)); [exact Hf | auto].
  - split; [constructor | auto].
Qed.

Lemma setValue_in_range s p hi :
  0 <= hi -> Qt.range s = (0, hi) -> 0 <= Qt.value (fst (Qt.setValue s p)) <= hi.
Proof.
  intros Hhi Hr. rewrite setValue_value. unfold Qt.bound.
  unfold Qt.range in Hr. injection Hr as -> ->. lia.
Qed.

Lemma setRange_emits_in_range s hi :
  0 <= hi -> snd (Qt.setRange s 0 hi) = true ->
  0 <= Qt.value (fst (Qt.setRange s 0 hi)) <= hi.
Proof.
  intros Hhi. unfold Qt.setRange. destruct (_ && _); [discriminate |].
  intros _. rewrite setValue_value. unfold Qt.bound. simpl. lia.
Qed.

Lemma slice_count_pos : 1 <= n.
Proof. unfold n. destruct fnames; [congruence | simpl; lia]. Qed.

(** The state a loaded viewer is in between two events. *)
Let loaded (w : state) : Prop :=
  filenames w = fnames /\ Qt.range (slider w) = (0, n - 1) /\
  0 <= Qt.value (slider w) <= n - 1.

Lemma slice_load_files_safe w0 :
  Forall shows (snd (load_files tiff fnames w0)) /\
  loaded (fst (load_files tiff fnames w0)).
Proof.
  pose proof slice_count_pos as Hn.
  unfold load_files. rewrite !andthen_snd, !andthen_fst. cbn [fst snd app].
  set (w1 := mkState (image_item w0) (slider w0) fnames).
  destruct (slice_on_slider_safe (fun s => Qt.setRange s 0 (n - 1)) w1 eq_refl)
    as (E1 & F1 & S1).
  { intros He. pose proof (setRange_emits_in_range (slider w1) (n - 1) ltac:(lia) He).
    lia. }
  fold n. set (w2 := fst (on_slider tiff (fun s => Qt.setRange s 0 (n - 1)) w1)) in *.
  assert (R2 : Qt.range (slider w2) = (0, n - 1)).
  { rewrite S1, setRange_range. f_equal. lia. }
  destruct (slice_on_slider_safe (fun s => Qt.setSliderPosition s 0) w2 F1)
    as (E2 & F2 & S2).
  { intros _. unfold Qt.setSliderPosition.
    pose proof (setValue_in_range (slider w2) 0 (n - 1) ltac:(lia) R2). lia. }
  set (w3 := fst (on_slider tiff (fun s => Qt.setSliderPosition s 0) w2)) in *.
  assert (R3 : Qt.range (slider w3) = (0, n - 1)).
  { rewrite S2. unfold Qt.setSliderPosition. rewrite setValue_range. exact R2. }
  assert (V3 : 0 <= Qt.value (slider w3) <= n - 1).
  { rewrite S2. unfold Qt.setSliderPosition.
    apply setValue_in_range; [lia | exact R2]. }
  destruct (slice_update_in_range w3 F2 ltac:(lia)) as (E3 & F3 & S3).
  split.
  - repeat (apply Forall_app; split); assumption.
  - unfold loaded. rewrite F3, S3. auto.
Qed.

Lemma slice_move_safe p w :
  loaded w ->
  Forall shows (snd (move_slider tiff p w)) /\ loaded (fst (move_slider tiff p w)).
Proof.
  pose proof slice_count_pos as Hn. intros (Hf & Hr & Hv). unfold move_slider.
  destruct (slice_on_slider_safe (fun s => Qt.setValue s p) w Hf) as (E & F & S).
  { intros _. pose proof (setValue_in_range (slider w) p (n - 1) ltac:(lia) Hr). lia. }
  split; [exact E |]. unfold loaded. rewrite F, S, setValue_range.
  split; [reflexivity |]. split; [exact Hr |].
  apply setValue_in_range; [lia | exact Hr].
Qed.

Lemma slice_run_safe ps : forall w,
  loaded w ->
  Forall shows (snd (Act.run (map (move_slider tiff) ps) w)) /\
  loaded (fst (Act.run (map (move_slider tiff) ps) w)).
Proof.
  induction ps as [| p ps IH]; intros w Hw; simpl.
  - split; [constructor | exact Hw].
  - rewrite andthen_snd, andthen_fst.
    destruct (slice_move_safe p w Hw) as (E1 & L1).
    destruct (IH _ L1) as (E2 & L2).
    split; [apply Forall_app; split; assumption | exact L2].
Qed.

End SliceSafety.

(** X10: once a non-empty file list is loaded, whatever the widget was
    before and wherever the slider is dragged afterwards (even outside its
    range), every event is one of the listed files pushed to the display:
    [filenames[pos]] never raises IndexError, and the slider stays within
    [0, N-1]. *)
Theorem slice_viewer_never_raises
  (tiff : string -> Arr.arr2 Qc) (fnames : list string)
  (w0 : SliceViewer.state) (ps : list Z) :
  fnames <> [] ->
  let session :=
    SliceViewer.load_files tiff fnames >>>
    Act.run (map (SliceViewer.move_slider tiff) ps) in
  Forall (fun e => exists fn, fn ∈ fnames /\
                             e = Act.SetImage (read_tiff tiff fn))
         (snd (session w0)) /\
  SliceViewer.filenames (fst (session w0)) = fnames /\
  Qt.range (SliceViewer.slider (fst (session w0)))
    = (0, Z.of_nat (length fnames) - 1) /\
  0 <= Qt.value (SliceViewer.slider (fst (session w0)))
    <= Z.of_nat (length fnames) - 1.
Proof.
  intros Hne session. unfold session. rewrite andthen_snd, andthen_fst.
  destruct (slice_load_files_safe tiff fnames Hne w0) as (E1 & L1).
  destruct (slice_run_safe tiff fnames Hne ps _ L1) as (E2 & L2).
  split; [apply Forall_app; split; assumption | exact L2].
Qed.

Lemma slice_viewer_never_raises_witness :
  let tiff := fun s : string =>
    Arr.mkArr 1 1 [[Qc_of_Z (Z.of_nat (String.length s))]] in
  let session :=
    SliceViewer.load_files tiff ["a"; "bb"]%string >>>
    Act.run (map (SliceViewer.move_slider tiff) [5; -3; 1]) in
  Qt.value (SliceViewer.slider
              (fst (session (SliceViewer.mkState None Qt.new_slider [])))) = 1 /\
  SliceViewer.filenames
    (fst (session (SliceViewer.mkState None Qt.new_slider [])))
  = ["a"; "bb"]%string.
Proof.
  intros tiff session. split; [vm_compute; reflexivity |].
  exact (proj1 (proj2 (slice_viewer_never_raises tiff ["a"; "bb"]%string
                         (SliceViewer.mkState None Qt.new_slider [])
                         [5; -3; 1] ltac:(discriminate)))).
Defined.
(** ** Loading nothing *)

Lemma slice_on_slider_unloaded tiff g (w : SliceViewer.state) :
  SliceViewer.filenames w = [] ->
  SliceViewer.on_slider tiff g w
  = (SliceViewer.with_slider w (fst (g (SliceViewer.slider w))), []).
Proof.
  intros Hf. unfold SliceViewer.on_slider.
  destruct (g (SliceViewer.slider w)) as [s emitted]. destruct emitted; simpl.
  - unfold SliceViewer.update_image. simpl. rewrite Hf. reflexivity.
  - reflexivity.
Qed.

(** X11: [SliceViewer.load_files([])] renders nothing: no event is
    emitted, the slider collapses to the single position 0, and the image
    shown before the call stays on display although no file is loaded. *)
Theorem slice_load_empty_keeps_display
  (tiff : string -> Arr.arr2 Qc) (w : SliceViewer.state) :
  SliceViewer.load_files tiff [] w
  = (SliceViewer.mkState (SliceViewer.image_item w) (Qt.mkSlider 0 0 0) [], []).
Proof.
  unfold SliceViewer.load_files, Act.andthen.
  rewrite slice_on_slider_unloaded by reflexivity.
  rewrite slice_on_slider_unloaded by reflexivity.
  unfold SliceViewer.update_image, SliceViewer.with_slider. simpl.
  f_equal. f_equal.
  change (-1) with (0 - 1). change (Z.of_nat 0) with 0.
  apply (setRange_setPosition (SliceViewer.slider w) 0 (0 - 1) 0). lia.
Qed.

(** ** ProjectionViewer: the first frame *)

(** X12: [ProjectionViewer.load_files] on a dataset path, without
    flat-field correction, ends with projection frame 0 (converted to float)
    on display and the slider at position 0 of [0, max(N-1, 0)]. *)
Theorem projection_load_renders_first_frame
  (read : pyfiles -> Z -> Z -> Arr.arr2 Qc * Arr.arr2 Qc) (dims : pyfiles -> Z)
  (fname : pyfiles) (w : ProjectionViewer.state) :
  truthy fname = true ->
  let loaded := ProjectionViewer.load_files read dims fname false w in
  let frame0 := Arr.fmap2 Some (fst (read fname 0 1)) in
  fst loaded =
    ProjectionViewer.mkState (Some frame0)
      (Qt.mkSlider 0 (Z.max 0 (dims fname - 1)) 0) fname false /\
  last (snd loaded) = Some (Act.SetImage frame0).
Proof.
  intros Ht loaded frame0.
  destruct (projection_load_files_fields read dims fname false w)
    as (Hs & Hf & Hc).
  unfold loaded, ProjectionViewer.load_files in *.
  rewrite !andthen_fst in *. rewrite !andthen_snd. cbn [fst snd] in *.
  set (w2 := fst (ProjectionViewer.on_slider read _ _)) in *.
  destruct (projection_update_keeps read w2) as (K1 & K2 & K3).
  rewrite K1 in Hs. rewrite K2 in Hf. rewrite K3 in Hc.
  assert (Hupd : ProjectionViewer.update_image read w2 =
                 (ProjectionViewer.mkState (Some frame0)
                    (ProjectionViewer.slider w2) fname false,
                  [Act.SetImage frame0])).
  { unfold ProjectionViewer.update_image. rewrite Hf, Hc, Ht, Hs.
    cbn [Qt.value]. change (0 + 1) with 1.
    unfold frame0. destruct (read fname 0 1) as [proj flat]. reflexivity. }
  rewrite Hupd. cbn [fst snd]. rewrite Hs. split; [reflexivity |].
  rewrite !app_assoc. apply last_snoc.
Qed.

Lemma projection_load_renders_first_frame_witness :
  let frame := fun pos : Z => Arr.mkArr 1 2 [[Qc_of_Z pos; Qc_of_Z (pos + 1)]] in
  let read := fun (_ : pyfiles) (lo _ : Z) => (frame lo, Arr.ones 1 2) in
  let dims := fun _ : pyfiles => 4 in
  ProjectionViewer.image_item
    (fst (ProjectionViewer.load_files read dims (PyStr "data.h5") false
            ProjectionViewer.init))
  = Some (Arr.fmap2 Some (frame 0)).
Proof.
  intros frame read dims.
  destruct (projection_load_renders_first_frame read dims (PyStr "data.h5")
              ProjectionViewer.init eq_refl) as [H _].
  rewrite H. reflexivity.
Defined.
(** ** VolumeViewer.load_data: what it rejects *)

(** X13: [load_data] raises, adding nothing to the view, when the file
    list is empty (IndexError on [filenames[0]]) or when the widget was built
    with [step = 0] (ValueError of a zero slice step). *)
Theorem load_data_rejects
  (version : Py.version) (tiff : string -> Arr.arr2 Qc)
  (w : VolumeViewer.state) (fnames : list string) :
  VolumeViewer.step w = 0 \/ fnames = [] ->
  VolumeViewer.load_data version tiff fnames w = None.
Proof.
  intros [H0 | Hnil]; unfold VolumeViewer.load_data, VolumeViewer.assemble.
  - rewrite H0. reflexivity.
  - subst fnames. unfold Py.slice_step.
    destruct (VolumeViewer.step w =? 0); [reflexivity |].
    destruct (0 <? VolumeViewer.step w); reflexivity.
Qed.

Lemma load_data_rejects_witness :
  let tiff := fun _ : string => Arr.ones 2 2 in
  VolumeViewer.load_data Py.Python3 tiff ["a"; "b"]%string (VolumeViewer.init 0 1)
  = None /\
  VolumeViewer.load_data Py.Python2 tiff [] (VolumeViewer.init 1 1) = None.
Proof.
  intros tiff. split.
  - exact (load_data_rejects Py.Python3 tiff (VolumeViewer.init 0 1) _
             (or_introl eq_refl)).
  - exact (load_data_rejects Py.Python2 tiff (VolumeViewer.init 1 1) _
             (or_intror eq_refl)).
Defined.

(** ** Where a voxel comes from *)

Lemma transpose_lookup {A} (a : Arr.arr2 A) (i j : nat) col v :
  Arr.wf a ->
  Arr.rows (Arr.transpose a) !! j = Some col -> col !! i = Some v ->
  exists row, Arr.rows a !! i = Some row /\ row !! j = Some v.
Proof.
  intros Hwf Hcol Hv. unfold Arr.transpose in Hcol. simpl in Hcol.
  rewrite list_lookup_fmap in Hcol.
  destruct (seq 0 (Arr.ncols a) !! j) as [j' |] eqn:Ej; [| discriminate].
  apply lookup_seq in Ej as [-> Hj]. simpl in Hcol. injection Hcol as <-.
  rewrite omap_lookup_total in Hv by (apply wf_column_total; assumption).
  destruct (Arr.rows a !! i) as [row |]; [| discriminate].
  exists row. split; [reflexivity | exact Hv].
Qed.

Lemma stride_from_length {A} (k : nat) (l : list A) :
  (0 < k)%nat ->
  forall skip, length (Py.stride_from k skip l)
               = ((length l - skip + k - 1) / k)%nat.
Proof.
  intros Hk. induction l as [| x t IH]; intros skip.
  - cbn [Py.stride_from length]. symmetry. apply Nat.div_small. lia.
  - destruct skip as [| s]; cbn [Py.stride_from length].
    + rewrite IH.
      replace (S (length t) - 0 + k - 1)%nat with (length t + 1 * k)%nat by lia.
      rewrite Nat.div_add by lia.
      destruct (le_lt_dec (Nat.pred k) (length t)) as [Hge | Hlt].
      * replace (length t - Nat.pred k + k - 1)%nat with (length t) by lia. lia.
      * replace (length t - Nat.pred k + k - 1)%nat with (k - 1)%nat by lia.
        rewrite !Nat.div_small by lia. reflexivity.
    + rewrite IH; f_equal; lia.
Qed.

Lemma omap_Some_map {A B} (g : A -> B) (l : list A) :
  omap (fun x => Some (g x)) l = map g l.
Proof. induction l as [| x l IH]; simpl; [reflexivity | f_equal; exact IH]. Qed.

(** X15: with a positive [step], the image a file contributes to the
    volume has [ceil(columns / step)] rows and [ceil(rows / step)] columns
    of the decoded image, and its sample [(x, y)] is the decoded image's
    sample in row [y * step] and column [x * step]: the volume's first axis
    runs along the image columns. *)
Theorem read_sub_source
  (tiff : string -> Arr.arr2 Qc) (st : Z) (f : string) (img : Arr.arr2 Qc) :
  0 < st -> Arr.wf (tiff f) ->
  VolumeViewer.read_sub tiff st f = Some img ->
  let k := Z.to_nat st in
  Arr.nrows img = ((Arr.ncols (tiff f) + k - 1) / k)%nat /\
  Arr.ncols img = ((Arr.nrows (tiff f) + k - 1) / k)%nat /\
  forall x y row v,
    Arr.rows img !! x = Some row -> row !! y = Some v ->
    exists r, Arr.rows (tiff f) !! (y * k)%nat = Some r /\
              r !! (x * k)%nat = Some v.
Proof.
  intros Hst Hwf Hread k.
  assert (Hk : (0 < k)%nat) by (unfold k; lia).
  unfold VolumeViewer.read_sub, Arr.subsample, Py.slice_step in Hread.
  destruct (st =? 0) eqn:E0; [apply Z.eqb_eq in E0; lia |].
  destruct (0 <? st) eqn:E1; [| apply Z.ltb_ge in E1; lia].
  fold k in Hread. rewrite omap_Some_map in Hread.
  injection Hread as Himg. subst img.
  cbn [Arr.nrows Arr.ncols Arr.rows].
  rewrite !stride_from_length, !length_seq by exact Hk.
  unfold read_tiff, Arr.transpose. cbn [Arr.nrows Arr.ncols].
  split; [f_equal; lia |]. split; [f_equal; lia |].
  intros x y row v Hrow Hv.
  rewrite list_lookup_fmap, stride_from_lookup, Nat.add_0_l in Hrow by exact Hk.
  change (map (fun j : nat => omap (fun r : list Qc => r !! j) (Arr.rows (tiff f)))
            (seq 0 (Arr.ncols (tiff f))))
    with (Arr.rows (Arr.transpose (tiff f))) in Hrow.
  destruct (Arr.rows (Arr.transpose (tiff f)) !! (x * k)%nat) as [col |] eqn:Ecol;
    cbn [fmap option_fmap option_map] in Hrow; [| discriminate Hrow].
  injection Hrow as Hrow. subst row.
  rewrite stride_from_lookup, Nat.add_0_l in Hv by exact Hk.
  exact (transpose_lookup (tiff f) (y * k) (x * k) col v Hwf Ecol Hv).
Qed.

Lemma read_sub_source_witness :
  let tiff := fun _ : string =>
    Arr.mkArr 2 3 [map Qc_of_Z [1; 2; 3]; map Qc_of_Z [4; 5; 6]] in
  VolumeViewer.read_sub tiff 2 "a" =
    Some (Arr.mkArr 2 1 [[Qc_of_Z 1]; [Qc_of_Z 3]]) /\
  Arr.nrows (Arr.mkArr 2 1 [[Qc_of_Z 1]; [Qc_of_Z 3]]) = ((3 + 2 - 1) / 2)%nat.
Proof.
  intros tiff. split; [reflexivity |].
  assert (Hwf : Arr.wf (tiff "a"%string)).
  { split; [reflexivity | repeat constructor]. }
  exact (proj1 (read_sub_source tiff 2 "a" _ ltac:(lia) Hwf eq_refl)).
Defined.
(** ** OverlapViewer.set_position *)

Lemma overlap_update_twice H st w :
  OverlapViewer.update_image H st (fst (OverlapViewer.update_image H st w))
  = OverlapViewer.update_image H st w.
Proof.
  unfold OverlapViewer.update_image at 2 3.
  destruct (OverlapViewer.first w) as [f |] eqn:Ef;
    [destruct (OverlapViewer.second w) as [s |] eqn:Es |].
  - destruct (OverlapViewer.shift H s _) as [k |] eqn:Ek.
    + destruct (Arr.map2 _ _ _) as [img |] eqn:Em; cbn [fst];
        unfold OverlapViewer.update_image;
        cbn [OverlapViewer.first OverlapViewer.second OverlapViewer.slider];
        rewrite ?Ef, ?Es, Ek, Em; reflexivity.
    + cbn [fst]. unfold OverlapViewer.update_image.
      rewrite Ef, Es, Ek. reflexivity.
  - cbn [fst]. unfold OverlapViewer.update_image. rewrite Ef, Es. reflexivity.
  - cbn [fst]. unfold OverlapViewer.update_image. rewrite Ef. reflexivity.
Qed.

(** X16: [set_position(p)] moves the slider to [int(p)] (truncated toward
    zero) clamped into the slider's range, keeps the range, and leaves the
    widget exactly as a rendering at that position leaves it; the last
    event is that rendering's. *)
Theorem set_position_clamps
  (H : Host.t) (st : Np.store) (w : OverlapViewer.state) (p : Qc) :
  let target := Qt.bound (OverlapViewer.slider w) (Qctrunc p) in
  let placed :=
    OverlapViewer.with_slider w
      (Qt.mkSlider (Qt.minimum (OverlapViewer.slider w))
                   (Qt.maximum (OverlapViewer.slider w)) target) in
  let result := OverlapViewer.set_position H st p w in
  fst result = fst (OverlapViewer.update_image H st placed) /\
  Qt.value (OverlapViewer.slider (fst result)) = target /\
  Qt.range (OverlapViewer.slider (fst result)) = Qt.range (OverlapViewer.slider w) /\
  last (snd result) = last (snd (OverlapViewer.update_image H st placed)).
Proof.
  intros target placed result.
  assert (Hfst : fst result = fst (OverlapViewer.update_image H st placed) /\
                 last (snd result)
                 = last (snd (OverlapViewer.update_image H st placed))).
  { unfold result, OverlapViewer.set_position.
    rewrite andthen_fst, andthen_snd. unfold OverlapViewer.on_slider.
    pose proof (setValue_fst (OverlapViewer.slider w) (Qctrunc p)) as Hs.
    destruct (Qt.setValue (OverlapViewer.slider w) (Qctrunc p)) as [s emitted].
    simpl in Hs. subst s. fold target placed.
    destruct emitted; cbn [Act.emit fst snd Act.skip].
    - rewrite overlap_update_twice. split; [reflexivity |].
      destruct (OverlapViewer.update_image H st placed) as [w' ev]. simpl.
      destruct ev as [| e ev]; [reflexivity |].
      rewrite last_app. destruct (last (e :: ev)); reflexivity.
    - split; reflexivity. }
  destruct Hfst as [Hf Hl]. split; [exact Hf |].
  destruct (overlap_update_keeps H st placed) as (_ & _ & Hk).
  rewrite Hf, Hk. repeat split. exact Hl.
Qed.
